(** * IFTMIN segment-stream parser (src/streamlit_app.py, class IFTMINParser)

    A shallow embedding of the parser half of the application: the tokenizer
    of [parse_iftmin], the four extractor passes and the two field decoders.

    Python values are modelled as follows.
    - [str] is [string]; a character is an [ascii] (code points below 256).
    - a [dict] with string keys is a [gmap string _].
    - a list is a [list].
    - an exception raised by an unguarded subscript is the [Raise] result. *)

From Stdlib Require Import String Ascii List Bool Arith Lia.
From stdpp Require Import base option strings list gmap fin_maps.

Open Scope string_scope.
Import ListNotations.

(** ** Exceptions *)

Module Py.

Inductive exn : Type := IndexError.

Inductive result (A : Type) : Type :=
| Ok (a : A)
| Raise (e : exn).

Arguments Ok {A} a.
Arguments Raise {A} e.

Definition bind {A B : Type} (m : result A) (k : A -> result B) : result B :=
  match m with
  | Ok a => k a
  | Raise e => Raise e
  end.

(** ** Strings *)

(** [s.startswith(p)] *)
Definition startswith (s p : string) : bool := String.prefix p s.

(** [c in s] for a one-character [c] *)
Fixpoint contains (c : ascii) (s : string) : bool :=
  match s with
  | EmptyString => false
  | String a r => if Ascii.eqb a c then true else contains c r
  end.

(** [s.replace(a, b)] for one-character [a] and [b] *)
Fixpoint replace (a b : ascii) (s : string) : string :=
  match s with
  | EmptyString => EmptyString
  | String c r => String (if Ascii.eqb c a then b else c) (replace a b r)
  end.

(** [s.split(sep)] for a one-character [sep]: the first field and the
    fields after it.  The result of [split] is never the empty list. *)
Fixpoint split_fields (sep : ascii) (s : string) : string * list string :=
  match s with
  | EmptyString => (EmptyString, [])
  | String c r =>
      let (h, t) := split_fields sep r in
      if Ascii.eqb c sep then (EmptyString, h :: t) else (String c h, t)
  end.

Definition split (sep : ascii) (s : string) : list string :=
  let (h, t) := split_fields sep s in h :: t.

(** [sep.join(l)] *)
Fixpoint join (sep : string) (l : list string) : string :=
  match l with
  | [] => EmptyString
  | [x] => x
  | x :: r => x ++ sep ++ join sep r
  end.

(** [str.isspace] on the code points below 256 *)
Definition isspace (c : ascii) : bool :=
  let n := nat_of_ascii c in
  (((9 <=? n) && (n <=? 13)) || ((28 <=? n) && (n <=? 32))
   || (n =? 133) || (n =? 160))%nat.

Fixpoint lstrip (s : string) : string :=
  match s with
  | EmptyString => EmptyString
  | String c r => if isspace c then lstrip r else s
  end.

Fixpoint rstrip (s : string) : string :=
  match s with
  | EmptyString => EmptyString
  | String c r =>
      match rstrip r with
      | EmptyString => if isspace c then EmptyString else String c EmptyString
      | r' => String c r'
      end
  end.

(** [s.strip()] *)
Definition strip (s : string) : string := rstrip (lstrip s).

(** truth value of a [str] *)
Definition truthy (s : string) : bool :=
  match s with
  | EmptyString => false
  | String _ _ => true
  end.

(** [s[i:j]] for [0 <= i <= j] *)
Definition slice (i j : nat) (s : string) : string :=
  String.substring i (j - i)%nat s.

(** [l[i]] for [0 <= i] *)
Definition index {A : Type} (l : list A) (i : nat) : result A :=
  match l !! i with
  | Some x => Ok x
  | None => Raise IndexError
  end.

(** [l[1:]] *)
Definition from1 {A : Type} (l : list A) : list A := List.tl l.

End Py.

Import Py.

Notation "'let*' x ':=' m 'in' k" := (Py.bind m (fun x => k))
  (at level 10, x name, m at level 100, k at level 200).

(** ** Values stored in the Document *)

Inductive pyval : Type :=
| VStr (s : string)
| VDict (d : gmap string string)
| VList (l : list string).

(** [parse_iftmin]'s [result] dictionary: its four sections. *)
Record Document : Type := mkDocument {
  header : gmap string string;
  parties : gmap string pyval;
  shipments : list (gmap string pyval);
  summary : gmap string string
}.

Module IFTMINParser.

(** ** Field decoders *)

(** [_format_date]: the body of the [try] only takes a length and slices,
    neither of which raises on a [str], so the handler is never entered. *)
Definition _format_date (date_str : string) : string :=
  if (8 <=? String.length date_str)%nat then
    slice 6 8 date_str ++ "." ++ slice 4 6 date_str ++ "." ++ slice 0 4 date_str
  else date_str.

(** one guarded assignment of [_parse_address]:
    [if len(parts) >= n: address[key] = f(parts[n-1])] *)
Definition address_field (parts : list string) (n : nat) (key : string)
    (f : string -> string) (address : gmap string string)
  : result (gmap string string) :=
  if (n <=? length parts)%nat then
    let* p := index parts (n - 1)%nat in
    Ok (<[key := f p]> address)
  else Ok address.

Definition _parse_address (parts : list string) (default_name : string)
  : result (gmap string string) :=
  let address : gmap string string := ∅ in
  let* address := address_field parts 5 "name"
               (fun p => if truthy p then p else default_name) address in
  let* address := address_field parts 6 "street" (replace ":" " ") address in
  let* address := address_field parts 7 "city" id address in
  let* address := address_field parts 8 "district" id address in
  let* address := address_field parts 9 "postal_code" id address in
  let* address := address_field parts 10 "country" id address in
  Ok address.

(** ** The loops

    [for segment in self.segments: ...] with the loop body as a function of
    the variables it assigns; an exception in the body leaves the loop. *)
Fixpoint for_each {S : Type} (body : S -> string -> result S) (st : S)
    (segments : list string) : result S :=
  match segments with
  | [] => Ok st
  | segment :: rest =>
      let* st := body st segment in
      for_each body st rest
  end.

(** [parts[i].split(':')[j] if ':' in parts[i] else <other>] *)
Definition subfield (parts : list string) (i j : nat)
    (other : result string) : result string :=
  let* p := index parts i in
  if contains ":" p then
    let* p := index parts i in
    index (split ":" p) j
  else other.

(** [parts[i] if len(parts) > i else ''] *)
Definition field_or_empty (parts : list string) (i : nat) : result string :=
  if (i <? length parts)%nat then index parts i else Ok "".

(** ** Header *)

Definition _parse_header_body (hdr : gmap string string) (segment : string)
  : result (gmap string string) :=
  if startswith segment "UNB" then
    let parts := split "+" segment in
    let* sender := subfield parts 2 0 (index parts 2) in
    let hdr := <["sender" := sender]> hdr in
    let* receiver := subfield parts 3 0 (index parts 3) in
    Ok (<["receiver" := receiver]> hdr)
  else if startswith segment "BGM" then
    let parts := split "+" segment in
    let* doc_number := field_or_empty parts 2 in
    Ok (<["doc_number" := doc_number]> hdr)
  else if startswith segment "DTM+9" then
    let parts := split "+" segment in
    let* date_str := subfield parts 1 1 (index parts 1) in
    Ok (<["message_date" := _format_date date_str]> hdr)
  else if startswith segment "CUX" then
    let parts := split "+" segment in
    if (2 <? length parts)%nat then
      let* currency := index parts 2 in
      Ok (<["currency" := currency]> hdr)
    else Ok hdr
  else Ok hdr.

Definition _parse_header (segments : list string) (result : Document)
  : Py.result Document :=
  let* hdr := for_each _parse_header_body (header result) segments in
  Ok (mkDocument hdr (parties result) (shipments result) (summary result)).

(** ** Parties *)

Definition _parse_parties_body (pts : gmap string pyval) (segment : string)
  : result (gmap string pyval) :=
  if startswith segment "NAD+SF" then
    let parts := split "+" segment in
    let* address := _parse_address parts "WTAM" in
    Ok (<["shipper" := VDict address]> pts)
  else if startswith segment "NAD+IV" then
    let parts := split "+" segment in
    let* address := _parse_address parts "AMAZON EU SARL" in
    Ok (<["invoicee" := VDict address]> pts)
  else if startswith segment "LOC+198" then
    let parts := split "+" segment in
    let* node_id := field_or_empty parts 2 in
    Ok (<["node_id" := VStr node_id]> pts)
  else Ok pts.

Definition _parse_parties (segments : list string) (result : Document)
  : Py.result Document :=
  let* pts := for_each _parse_parties_body (parties result) segments in
  Ok (mkDocument (header result) pts (shipments result) (summary result)).

(** ** Shipments *)

(** The variables of [_parse_shipments]: the record being filled, the item
    accumulator, and [result['shipments']]. *)
Record aggregator : Type := mkAggregator {
  current_shipment : gmap string pyval;
  items : list string;
  appended : list (gmap string pyval)
}.

(** truth value of a [dict] *)
Definition nonempty (d : gmap string pyval) : bool :=
  negb (bool_decide (d = ∅)).

(** [current_shipment[key] = v] *)
Definition assign (key : string) (v : pyval) (st : aggregator) : aggregator :=
  mkAggregator (<[key := v]> (current_shipment st)) (items st) (appended st).

(** The block under [if current_shipment:] inside the loop. *)
Definition close_shipment (st : aggregator) : aggregator :=
  if nonempty (current_shipment st) then
    let current_shipment := <["items" := VList (items st)]> (current_shipment st) in
    mkAggregator ∅ [] (appended st ++ [current_shipment])
  else st.

Definition _parse_shipments_body (st : aggregator) (segment : string)
  : result aggregator :=
  if startswith segment "GID+1" || startswith segment "GID+2" then
    let st := close_shipment st in
    let parts := split "+" segment in
    if (2 <? length parts)%nat then
      let* p := index parts 2 in
      let* total_packages := index (split ":" p) 0 in
      Ok (assign "total_packages" (VStr total_packages) st)
    else Ok st
  else if startswith segment "NAD+CN" then
    let parts := split "+" segment in
    let* address := _parse_address parts "" in
    Ok (assign "consignee" (VDict address) st)
  else if startswith segment "RFF+CR" then
    let parts := split "+" segment in
    let* v := field_or_empty parts 2 in
    Ok (assign "tracking_number" (VStr v) st)
  else if startswith segment "RFF+TB" then
    let parts := split "+" segment in
    let* v := field_or_empty parts 2 in
    Ok (assign "order_id" (VStr v) st)
  else if startswith segment "RFF+TE" then
    let parts := split "+" segment in
    let* v := field_or_empty parts 2 in
    Ok (assign "phone" (VStr v) st)
  else if startswith segment "DTM+17" then
    let parts := split "+" segment in
    let* date_str := subfield parts 1 1 (index parts 1) in
    Ok (assign "delivery_date" (VStr (_format_date date_str)) st)
  else if startswith segment "MEA+WX+B+KG" then
    let parts := split "+" segment in
    let* v := field_or_empty parts 3 in
    Ok (assign "weight" (VStr v) st)
  else if startswith segment "DIM+2+CMT" then
    let parts := split "+" segment in
    let* p := index parts 2 in
    let* dims :=
      if contains ":" p then
        let* p := index parts 2 in Ok (from1 (split ":" p))
      else Ok [] in
    let dimensions :=
      match dims with
      | [] => ""
      | _ :: _ => join "x" dims ++ " cm"
      end in
    Ok (assign "dimensions" (VStr dimensions) st)
  else if startswith segment "RFF+VP" then
    let parts := split "+" segment in
    if (2 <? length parts)%nat then
      let* p := index parts 2 in
      Ok (mkAggregator (current_shipment st) (items st ++ [p]) (appended st))
    else Ok st
  else Ok st.

(** The block after the loop ("Add the last shipment"). *)
Definition add_last_shipment (st : aggregator) : list (gmap string pyval) :=
  if nonempty (current_shipment st) then
    appended st ++ [<["items" := VList (items st)]> (current_shipment st)]
  else appended st.

(** The state of the loop after the segments [segments], started with the
    list [ships] as [result['shipments']]. *)
Definition aggregate (ships : list (gmap string pyval)) (segments : list string)
  : result aggregator :=
  for_each _parse_shipments_body (mkAggregator ∅ [] ships) segments.

Definition _parse_shipments (segments : list string) (result : Document)
  : Py.result Document :=
  let* st := aggregate (shipments result) segments in
  Ok (mkDocument (header result) (parties result) (add_last_shipment st)
        (summary result)).

(** ** Summary *)

Definition _parse_summary_body (sm : gmap string string) (segment : string)
  : result (gmap string string) :=
  if startswith segment "CNT+2" then
    let parts := split "+" segment in
    let* v := subfield parts 1 1 (Ok "") in
    Ok (<["total_packages" := v]> sm)
  else if startswith segment "CNT+8" then
    let parts := split "+" segment in
    let* v := subfield parts 1 1 (Ok "") in
    Ok (<["total_shipments" := v]> sm)
  else Ok sm.

Definition _parse_summary (segments : list string) (result : Document)
  : Py.result Document :=
  let* sm := for_each _parse_summary_body (summary result) segments in
  Ok (mkDocument (header result) (parties result) (shipments result) sm).

(** ** The parser *)

Definition newline : ascii := ascii_of_nat 10.

(** [self.segments] as [parse_iftmin] computes it *)
Definition tokenize (data : string) : list string :=
  let data := replace "'" newline data in
  List.filter (fun segment => truthy (strip segment)) (split newline data).

Definition parse_iftmin (data : string) : Py.result Document :=
  let segments := tokenize data in
  let result := mkDocument ∅ ∅ [] ∅ in
  let* result := _parse_header segments result in
  let* result := _parse_parties segments result in
  let* result := _parse_shipments segments result in
  let* result := _parse_summary segments result in
  Ok result.

(** ** Which segments the aggregator reacts to *)

(** the test of the first branch of the loop of [_parse_shipments] *)
Definition opens_shipment (segment : string) : bool :=
  startswith segment "GID+1" || startswith segment "GID+2".

(** the tests of the branches that assign a key of [current_shipment] *)
Definition fills_shipment (segment : string) : bool :=
  negb (opens_shipment segment)
  && (startswith segment "NAD+CN" || startswith segment "RFF+CR"
      || startswith segment "RFF+TB" || startswith segment "RFF+TE"
      || startswith segment "DTM+17" || startswith segment "MEA+WX+B+KG"
      || startswith segment "DIM+2+CMT").

(** the identifier an item-reference segment contributes, if any *)
Definition item_reference (segment : string) : option string :=
  if negb (opens_shipment segment) && negb (fills_shipment segment)
     && startswith segment "RFF+VP"
  then split "+" segment !! 2%nat else None.

(** every opening segment carries a third field *)
Definition opens_with_count (segments : list string) : bool :=
  forallb (fun segment =>
             implb (opens_shipment segment)
                   (2 <? length (split "+" segment))%nat) segments.

(** no filling segment comes before the first opening segment *)
Fixpoint starts_closed (segments : list string) : bool :=
  match segments with
  | [] => true
  | segment :: rest =>
      if opens_shipment segment then true
      else negb (fills_shipment segment) && starts_closed rest
  end.

(** an envelope segment too short for the two subscripts of [_parse_header] *)
Definition short_envelope (segment : string) : bool :=
  startswith segment "UNB" && (length (split "+" segment) <? 4)%nat.

(** [result] as [parse_iftmin] creates it *)
Definition empty_document : Document := mkDocument ∅ ∅ [] ∅.

(** a shipment record carries a list under the key [items] *)
Definition has_items (shipment : gmap string pyval) : Prop :=
  exists l, shipment !! "items" = Some (VList l).

(** a well-formed date: eight decimal digits *)
Definition isdigit (c : ascii) : bool :=
  let n := nat_of_ascii c in ((48 <=? n) && (n <=? 57))%nat.

Definition is_date8 (s : string) : bool :=
  (String.length s =? 8)%nat && forallb isdigit (list_ascii_of_string s).

(** the party segments decoded with a default display name:
    prefix, role, default name *)
Definition named_parties : list (string * string * string) :=
  [("NAD+SF", "shipper", "WTAM"); ("NAD+IV", "invoicee", "AMAZON EU SARL")].

(** the number of shipment-opening segments *)
Definition count_opens (segments : list string) : nat :=
  length (List.filter opens_shipment segments).

(** What one turn of the loop of [_parse_shipments] does to its variables,
    by the kind of the segment. *)
Inductive effect (st : aggregator) (segment : string) : aggregator -> Prop :=
| effect_open_count (p total_packages : string) :
    opens_shipment segment = true ->
    split "+" segment !! 2%nat = Some p ->
    split ":" p !! 0%nat = Some total_packages ->
    effect st segment
      (assign "total_packages" (VStr total_packages) (close_shipment st))
| effect_open_bare :
    opens_shipment segment = true ->
    (length (split "+" segment) <= 2)%nat ->
    effect st segment (close_shipment st)
| effect_fill (key : string) (v : pyval) :
    fills_shipment segment = true ->
    effect st segment (assign key v st)
| effect_item (x : string) :
    item_reference segment = Some x ->
    effect st segment
      (mkAggregator (current_shipment st) (items st ++ [x]) (appended st))
| effect_skip :
    opens_shipment segment = false ->
    fills_shipment segment = false ->
    item_reference segment = None ->
    effect st segment st.

(** ** Vocabulary of the further properties *)

(** every character of a string passes a test *)
Fixpoint all_chars (P : ascii -> bool) (s : string) : bool :=
  match s with
  | EmptyString => true
  | String c r => P c && all_chars P r
  end.

(** the segment terminator of the input *)
Definition apostrophe : ascii := "'"%char.

(** a character that ends up in no segment: white space, or a terminator *)
Definition separates (c : ascii) : bool := isspace c || Ascii.eqb c apostrophe.

(** the attributes of an Address *)
Definition address_keys : list string :=
  ["name"; "street"; "city"; "district"; "postal_code"; "country"].

Definition address_schema (address : gmap string string) : Prop :=
  forall key, is_Some (address !! key) -> In key address_keys.

(** what the branches after the opening one may assign to a record *)
Definition fill_entry (key : string) (v : pyval) : Prop :=
  match v with
  | VStr _ =>
      In key ["tracking_number"; "order_id"; "phone"; "delivery_date";
              "weight"; "dimensions"]
  | VDict address => key = "consignee" /\ address_schema address
  | VList _ => False
  end.

(** what a record of the shipments sequence may hold *)
Definition shipment_entry (key : string) (v : pyval) : Prop :=
  match v with
  | VStr _ =>
      In key ["total_packages"; "tracking_number"; "order_id"; "phone";
              "delivery_date"; "weight"; "dimensions"]
  | VDict address => key = "consignee" /\ address_schema address
  | VList _ => key = "items"
  end.

(** the package count an opening segment carries:
    [parts[2].split(':')[0]] when the segment has a third field *)
Definition package_count (segment : string) : option string :=
  match split "+" segment !! 2%nat with
  | Some p => split ":" p !! 0%nat
  | None => None
  end.

(** the item list of a record of the shipments sequence *)
Definition items_of (shipment : gmap string pyval) : list string :=
  match shipment !! "items" with
  | Some (VList l) => l
  | _ => []
  end.

(** the identifiers of the item-reference segments, in the order read *)
Definition item_references (segments : list string) : list string :=
  omap item_reference segments.

(** a record of the shipments sequence: typed entries, and some entry
    besides the item list *)
Definition shipment_schema (shipment : gmap string pyval) : Prop :=
  (forall key v, shipment !! key = Some v -> shipment_entry key v)
  /\ (exists key, key <> "items" /\ is_Some (shipment !! key)).

(** a segment that puts an entry into the record being filled *)
Definition sets_field (segment : string) : bool :=
  fills_shipment segment
  || (opens_shipment segment && (2 <? length (split "+" segment))%nat).

(** the entries of the record being filled *)
Definition record_ok (record : gmap string pyval) : Prop :=
  forall key v,
    record !! key = Some v ->
    fill_entry key v \/ (key = "total_packages" /\ exists n, v = VStr n).

(** the keys of the header and of the summary *)
Definition header_keys : list string :=
  ["sender"; "receiver"; "doc_number"; "message_date"; "currency"].

Definition summary_keys : list string := ["total_packages"; "total_shipments"].

(** what the parties section may hold: an Address with Address keys and a
    name that is not blank under [shipper] or [invoicee], a string under
    [node_id] *)
Definition party_entry (key : string) (v : pyval) : Prop :=
  match v with
  | VDict address =>
      (key = "shipper" \/ key = "invoicee")
      /\ address_schema address
      /\ (forall n, address !! "name" = Some n -> n <> "")
  | VStr _ => key = "node_id"
  | VList _ => False
  end.

(** a value with no field separator and no sub-field separator in it *)
Definition atomic (v : string) : Prop :=
  contains ":" v = false /\ contains "+" v = false.

Definition clean_segment (segment : string) : Prop :=
  truthy (strip segment) = true
  /\ contains apostrophe segment = false
  /\ contains newline segment = false.

(** the opening segments that append nothing when they are closed: fewer
    than three fields, and no filling segment before the next opening
    segment *)
Fixpoint empty_opens (segments : list string) : nat :=
  match segments with
  | [] => 0
  | segment :: rest =>
      (if opens_shipment segment
          && negb (2 <? length (split "+" segment))%nat
          && starts_closed rest
       then 1 else 0)
      + empty_opens rest
  end.

End IFTMINParser.

Import IFTMINParser.

(** * Properties *)

(** ** Strings and lists *)

Section PyFacts.

Lemma startswith_inv (p s : string) :
  startswith s p = true -> exists r, s = p ++ r.
Proof.
  unfold startswith. revert s.
  induction p as [|a p IH]; intros s H.
  - now exists s.
  - destruct s as [|b s]; simpl in H; [discriminate|].
    destruct (ascii_dec a b) as [->|]; [|discriminate].
    destruct (IH _ H) as [r ->]. now exists r.
Qed.

Lemma index_lt {A : Type} (l : list A) (i : nat) :
  (i < length l)%nat -> exists x, index l i = Ok x /\ l !! i = Some x.
Proof.
  intros H. destruct (lookup_lt_is_Some_2 l i H) as [x Hx].
  exists x. unfold index. now rewrite Hx.
Qed.

Lemma index_Some {A : Type} (l : list A) (i : nat) (x : A) :
  l !! i = Some x -> index l i = Ok x.
Proof. intros H. unfold index. now rewrite H. Qed.

Lemma split_unfold (sep : ascii) (s : string) :
  split sep s = fst (split_fields sep s) :: snd (split_fields sep s).
Proof. unfold split. now destruct (split_fields sep s). Qed.

Lemma split_cons (sep c : ascii) (s : string) :
  split sep (String c s) =
  if Ascii.eqb c sep then EmptyString :: split sep s
  else String c (fst (split_fields sep s)) :: snd (split_fields sep s).
Proof.
  rewrite !split_unfold. simpl.
  destruct (split_fields sep s) as [h t]. now destruct (Ascii.eqb c sep).
Qed.

Lemma split_length_pos (sep : ascii) (s : string) :
  (0 < length (split sep s))%nat.
Proof. rewrite split_unfold. simpl. lia. Qed.

(** [sep in s] gives [s.split(sep)] a second element *)
Lemma split_length_contains (sep : ascii) (s : string) :
  contains sep s = true -> (1 < length (split sep s))%nat.
Proof.
  induction s as [|c s IH]; simpl; [discriminate|].
  rewrite split_cons. destruct (Ascii.eqb c sep).
  - intros _. simpl. pose proof (split_length_pos sep s). lia.
  - intros H. specialize (IH H). rewrite split_unfold in IH. simpl in *. lia.
Qed.

End PyFacts.

(** ** The address decoder *)

Section Address.

Variables (parts : list string) (default_name : string).

(** [_parse_address] returns, and each attribute is looked up at its own
    position of [parts]. *)
Lemma _parse_address_fields :
  exists address,
    _parse_address parts default_name = Ok address
    /\ address !! "name"
       = (fun p => if truthy p then p else default_name) <$> parts !! 4%nat
    /\ address !! "street" = replace ":" " " <$> parts !! 5%nat
    /\ address !! "city" = parts !! 6%nat
    /\ address !! "district" = parts !! 7%nat
    /\ address !! "postal_code" = parts !! 8%nat
    /\ address !! "country" = parts !! 9%nat.
Proof.
  destruct parts as [|p0 [|p1 [|p2 [|p3 [|p4 [|p5 [|p6 [|p7 [|p8 [|p9 l]]]]]]]]]];
    (eexists; split; [reflexivity | repeat split; reflexivity]).
Qed.

End Address.

(** ** Field accesses that cannot fail *)

Section Accesses.

Lemma split_length_app (sep : ascii) (p r : string) :
  (length (split sep p) <= length (split sep (p ++ r)))%nat.
Proof.
  induction p as [|c p IH].
  - rewrite (split_unfold sep (_ ++ r)). simpl. lia.
  - change (String c p ++ r) with (String c (p ++ r)).
    rewrite !split_cons. rewrite !split_unfold in IH.
    destruct (Ascii.eqb c sep); rewrite ?split_unfold; simpl in *; lia.
Qed.

(** a segment has at least as many fields as the prefix it starts with *)
Lemma startswith_split_length (sep : ascii) (p s : string) :
  startswith s p = true -> (length (split sep p) <= length (split sep s))%nat.
Proof.
  intros H. destruct (startswith_inv _ _ H) as [r ->]. apply split_length_app.
Qed.

Lemma field_or_empty_returns (parts : list string) (i : nat) :
  exists v, field_or_empty parts i = Ok v.
Proof.
  unfold field_or_empty. destruct (i <? length parts)%nat eqn:E; [|eauto].
  apply Nat.ltb_lt in E. destruct (index_lt parts i E) as (x & Hx & _). eauto.
Qed.

Lemma subfield_returns (parts : list string) (i j : nat) (other : result string) :
  (i < length parts)%nat -> (j <= 1)%nat -> (exists v, other = Ok v) ->
  exists v, subfield parts i j other = Ok v.
Proof.
  intros Hi Hj Hother. unfold subfield.
  destruct (index_lt parts i Hi) as (p & Hp & _). rewrite Hp. simpl.
  destruct (contains ":" p) eqn:E; [|assumption].
  assert (j < length (split ":" p))%nat as Hlen.
  { pose proof (split_length_contains ":" p E). lia. }
  destruct (index_lt _ j Hlen) as (q & Hq & _). eauto.
Qed.

Lemma subfield_short (parts : list string) (i j : nat) (other : result string) :
  (length parts <= i)%nat -> subfield parts i j other = Raise IndexError.
Proof.
  intros H. unfold subfield, index. now rewrite (lookup_ge_None_2 parts i H).
Qed.

End Accesses.

(** ** Loops *)

Section Loops.

Context {S : Type} (body : S -> string -> result S).

Lemma for_each_app (st : S) (l1 l2 : list string) :
  for_each body st (l1 ++ l2)
  = let* st1 := for_each body st l1 in for_each body st1 l2.
Proof.
  revert st. induction l1 as [|seg l1 IH]; intros st; simpl; [reflexivity|].
  destruct (body st seg) as [st1|e]; simpl; [apply IH | reflexivity].
Qed.

Lemma for_each_returns (segments : list string) :
  (forall st seg, In seg segments -> exists st', body st seg = Ok st') ->
  forall st, exists st', for_each body st segments = Ok st'.
Proof.
  induction segments as [|seg l IH]; intros Hbody st; simpl; [eauto|].
  destruct (Hbody st seg) as [st1 ->]; [now left|]. simpl.
  apply IH. intros st2 seg2 Hin. apply Hbody. now right.
Qed.

(** the loop raises exactly when the body raises at some segment *)
Lemma for_each_raises (raising : string -> bool) (segments : list string) :
  (forall st seg, raising seg = true -> body st seg = Raise IndexError) ->
  (forall st seg, raising seg = false -> exists st', body st seg = Ok st') ->
  forall st,
    if existsb raising segments
    then for_each body st segments = Raise IndexError
    else exists st', for_each body st segments = Ok st'.
Proof.
  intros Hbad Hgood.
  induction segments as [|seg l IH]; intros st; simpl; [eauto|].
  destruct (raising seg) eqn:E; simpl.
  - now rewrite (Hbad st seg E).
  - destruct (Hgood st seg E) as [st1 ->]. simpl. apply IH.
Qed.

End Loops.

(** ** One turn of the aggregator *)

Section Aggregator.

Ltac prefix_tests :=
  unfold item_reference, fills_shipment, opens_shipment;
  repeat match goal with
         | H : _ = true |- _ => rewrite H
         | H : _ = false |- _ => rewrite H
         end;
  simpl.

Ltac fills key v :=
  eexists; split; [reflexivity | apply (effect_fill _ _ key v); prefix_tests; reflexivity].

(** The body of the loop never raises, and acts as [effect] says. *)
Lemma _parse_shipments_body_effect (st : aggregator) (segment : string) :
  exists st', _parse_shipments_body st segment = Ok st' /\ effect st segment st'.
Proof.
  unfold _parse_shipments_body. cbv zeta.
  destruct (startswith segment "GID+1" || startswith segment "GID+2") eqn:Hopen.
  { destruct (2 <? length (split "+" segment))%nat eqn:Hlen.
    - apply Nat.ltb_lt in Hlen.
      destruct (index_lt _ _ Hlen) as (p & Hp & Hp').
      destruct (index_lt _ _ (split_length_pos ":" p)) as (n & Hn & Hn').
      rewrite Hp. simpl. rewrite Hn. simpl.
      eexists; split; [reflexivity|]. now apply (effect_open_count _ _ p n).
    - apply Nat.ltb_ge in Hlen.
      eexists; split; [reflexivity|]. now apply effect_open_bare. }
  destruct (startswith segment "NAD+CN") eqn:H1.
  { destruct (_parse_address_fields (split "+" segment) "") as (a & -> & _).
    simpl. fills "consignee" (VDict a). }
  destruct (startswith segment "RFF+CR") eqn:H2.
  { destruct (field_or_empty_returns (split "+" segment) 2) as [v ->].
    simpl. fills "tracking_number" (VStr v). }
  destruct (startswith segment "RFF+TB") eqn:H3.
  { destruct (field_or_empty_returns (split "+" segment) 2) as [v ->].
    simpl. fills "order_id" (VStr v). }
  destruct (startswith segment "RFF+TE") eqn:H4.
  { destruct (field_or_empty_returns (split "+" segment) 2) as [v ->].
    simpl. fills "phone" (VStr v). }
  destruct (startswith segment "DTM+17") eqn:H5.
  { pose proof (startswith_split_length "+" _ _ H5) as Hlen.
    change (length (split "+" "DTM+17")) with 2%nat in Hlen.
    destruct (index_lt (split "+" segment) 1) as (p & Hp & _); [lia|].
    destruct (subfield_returns (split "+" segment) 1 1 (index (split "+" segment) 1))
      as [v ->]; [lia | lia | eauto |].
    simpl. fills "delivery_date" (VStr (_format_date v)). }
  destruct (startswith segment "MEA+WX+B+KG") eqn:H6.
  { destruct (field_or_empty_returns (split "+" segment) 3) as [v ->].
    simpl. fills "weight" (VStr v). }
  destruct (startswith segment "DIM+2+CMT") eqn:H7.
  { pose proof (startswith_split_length "+" _ _ H7) as Hlen.
    change (length (split "+" "DIM+2+CMT")) with 3%nat in Hlen.
    destruct (index_lt (split "+" segment) 2) as (p & Hp & _); [lia|].
    rewrite Hp. simpl.
    destruct (contains ":" p); simpl;
      eexists; (split; [reflexivity|]); apply effect_fill; prefix_tests; reflexivity. }
  destruct (startswith segment "RFF+VP") eqn:H8.
  { destruct (2 <? length (split "+" segment))%nat eqn:Hlen.
    - apply Nat.ltb_lt in Hlen.
      destruct (index_lt _ _ Hlen) as (p & Hp & Hp').
      rewrite Hp. simpl. eexists; split; [reflexivity|].
      apply effect_item. prefix_tests. exact Hp'.
    - apply Nat.ltb_ge in Hlen.
      eexists; split; [reflexivity|].
      apply effect_skip; prefix_tests; try reflexivity.
      apply lookup_ge_None_2. lia. }
  eexists; split; [reflexivity|].
  apply effect_skip; prefix_tests; reflexivity.
Qed.

End Aggregator.

(** ** The other passes *)

Section Passes.

Lemma _parse_header_body_raises (hdr : gmap string string) (segment : string) :
  short_envelope segment = true ->
  _parse_header_body hdr segment = Raise IndexError.
Proof.
  unfold short_envelope, _parse_header_body. cbv zeta.
  intros [-> Hlen%Nat.ltb_lt]%andb_true_iff.
  destruct (le_lt_dec (length (split "+" segment)) 2) as [Hle|Hgt].
  - now rewrite subfield_short.
  - destruct (subfield_returns (split "+" segment) 2 0 (index (split "+" segment) 2))
      as [v ->]; [lia | lia | |].
    + destruct (index_lt (split "+" segment) 2 Hgt) as (x & -> & _). eauto.
    + simpl. rewrite subfield_short; [reflexivity | lia].
Qed.

Lemma _parse_header_body_returns (hdr : gmap string string) (segment : string) :
  short_envelope segment = false ->
  exists hdr', _parse_header_body hdr segment = Ok hdr'.
Proof.
  unfold short_envelope, _parse_header_body. cbv zeta. intros Hshort.
  destruct (startswith segment "UNB") eqn:H1.
  { simpl in Hshort. apply Nat.ltb_ge in Hshort.
    destruct (index_lt (split "+" segment) 2) as (x2 & Hx2 & _); [lia|].
    destruct (index_lt (split "+" segment) 3) as (x3 & Hx3 & _); [lia|].
    destruct (subfield_returns (split "+" segment) 2 0 (index (split "+" segment) 2))
      as [v ->]; [lia | lia | eauto |].
    destruct (subfield_returns (split "+" segment) 3 0 (index (split "+" segment) 3))
      as [w ->]; [lia | lia | eauto |].
    simpl. eauto. }
  destruct (startswith segment "BGM") eqn:H2.
  { destruct (field_or_empty_returns (split "+" segment) 2) as [v ->].
    simpl. eauto. }
  destruct (startswith segment "DTM+9") eqn:H3.
  { pose proof (startswith_split_length "+" _ _ H3) as Hlen.
    change (length (split "+" "DTM+9")) with 2%nat in Hlen.
    destruct (index_lt (split "+" segment) 1) as (p & Hp & _); [lia|].
    destruct (subfield_returns (split "+" segment) 1 1 (index (split "+" segment) 1))
      as [v ->]; [lia | lia | eauto |].
    simpl. eauto. }
  destruct (startswith segment "CUX") eqn:H4; [|eauto].
  destruct (2 <? length (split "+" segment))%nat eqn:Hlen; [|eauto].
  apply Nat.ltb_lt in Hlen.
  destruct (index_lt _ _ Hlen) as (p & -> & _). simpl. eauto.
Qed.

Lemma _parse_parties_body_returns (pts : gmap string pyval) (segment : string) :
  exists pts', _parse_parties_body pts segment = Ok pts'.
Proof.
  unfold _parse_parties_body. cbv zeta.
  destruct (startswith segment "NAD+SF").
  { destruct (_parse_address_fields (split "+" segment) "WTAM") as (a & -> & _).
    simpl. eauto. }
  destruct (startswith segment "NAD+IV").
  { destruct (_parse_address_fields (split "+" segment) "AMAZON EU SARL")
      as (a & -> & _).
    simpl. eauto. }
  destruct (startswith segment "LOC+198"); [|eauto].
  destruct (field_or_empty_returns (split "+" segment) 2) as [v ->].
  simpl. eauto.
Qed.

Lemma _parse_summary_body_returns (sm : gmap string string) (segment : string) :
  exists sm', _parse_summary_body sm segment = Ok sm'.
Proof.
  unfold _parse_summary_body. cbv zeta.
  destruct (startswith segment "CNT+2") eqn:H1.
  { pose proof (startswith_split_length "+" _ _ H1) as Hlen.
    change (length (split "+" "CNT+2")) with 2%nat in Hlen.
    destruct (subfield_returns (split "+" segment) 1 1 (Ok ""))
      as [v ->]; [lia | lia | eauto |].
    simpl. eauto. }
  destruct (startswith segment "CNT+8") eqn:H2; [|eauto].
  pose proof (startswith_split_length "+" _ _ H2) as Hlen.
  change (length (split "+" "CNT+8")) with 2%nat in Hlen.
  destruct (subfield_returns (split "+" segment) 1 1 (Ok ""))
    as [v ->]; [lia | lia | eauto |].
  simpl. eauto.
Qed.

Lemma aggregate_returns (ships : list (gmap string pyval)) (segments : list string) :
  exists st, aggregate ships segments = Ok st.
Proof.
  apply for_each_returns. intros st seg _.
  destruct (_parse_shipments_body_effect st seg) as (st' & H & _). eauto.
Qed.

(** [_parse_shipments] returns on every segment list and touches nothing
    but the shipments. *)
Lemma _parse_shipments_returns (segments : list string) (result : Document) :
  exists st,
    aggregate (shipments result) segments = Ok st
    /\ _parse_shipments segments result
       = Ok (mkDocument (header result) (parties result) (add_last_shipment st)
               (summary result)).
Proof.
  destruct (aggregate_returns (shipments result) segments) as [st H].
  exists st. split; [exact H|]. unfold _parse_shipments. now rewrite H.
Qed.

(** [parse_iftmin] raises exactly on a short envelope segment; otherwise the
    Document it returns holds the shipments [_parse_shipments] computes from
    the segments alone. *)
Lemma parse_iftmin_cases (data : string) :
  if existsb short_envelope (tokenize data)
  then parse_iftmin data = Raise IndexError
  else exists doc doc',
      parse_iftmin data = Ok doc
      /\ _parse_shipments (tokenize data) empty_document = Ok doc'
      /\ shipments doc = shipments doc'.
Proof.
  unfold parse_iftmin. cbv zeta.
  pose proof (for_each_raises _parse_header_body short_envelope (tokenize data)
                (fun st seg => _parse_header_body_raises st seg)
                (fun st seg => _parse_header_body_returns st seg) ∅) as Hh.
  unfold _parse_header. simpl header.
  destruct (existsb short_envelope (tokenize data)).
  - now rewrite Hh.
  - destruct Hh as [hdr ->]. simpl.
    unfold _parse_parties.
    destruct (for_each_returns _parse_parties_body (tokenize data)
                (fun st seg _ => _parse_parties_body_returns st seg) ∅) as [pts Hp].
    simpl in *. rewrite Hp. simpl.
    destruct (_parse_shipments_returns (tokenize data) (mkDocument hdr pts [] ∅))
      as (st & Hst & ->).
    destruct (_parse_shipments_returns (tokenize data) empty_document)
      as (st' & Hst' & Hdoc').
    simpl in *. rewrite Hst in Hst'. injection Hst' as <-.
    unfold _parse_summary.
    destruct (for_each_returns _parse_summary_body (tokenize data)
                (fun st seg _ => _parse_summary_body_returns st seg) ∅) as [sm Hs].
    simpl in *. rewrite Hs. simpl.
    eexists _, _. split; [reflexivity|]. split; [exact Hdoc'|]. reflexivity.
Qed.

(** The shipments of a returned Document are those of the shipments pass. *)
Lemma parse_iftmin_same_shipments (data : string) (doc doc' : Document) :
  parse_iftmin data = Ok doc ->
  _parse_shipments (tokenize data) empty_document = Ok doc' ->
  shipments doc = shipments doc'.
Proof.
  intros H H'. pose proof (parse_iftmin_cases data) as Hc.
  destruct (existsb short_envelope (tokenize data)).
  - rewrite H in Hc. discriminate.
  - destruct Hc as (d & d' & Hd & Hd' & Heq). congruence.
Qed.

End Passes.

(** ** Invariants of the aggregator *)

Section Invariants.

Lemma nonempty_true (d : gmap string pyval) : nonempty d = true <-> d <> ∅.
Proof.
  unfold nonempty. rewrite negb_true_iff, bool_decide_eq_false. reflexivity.
Qed.

Lemma nonempty_false (d : gmap string pyval) : nonempty d = false <-> d = ∅.
Proof.
  unfold nonempty. rewrite negb_false_iff, bool_decide_eq_true. reflexivity.
Qed.

Lemma fills_not_opens (segment : string) :
  fills_shipment segment = true -> opens_shipment segment = false.
Proof.
  unfold fills_shipment. destruct (opens_shipment segment); simpl; congruence.
Qed.

Lemma item_not_opens (segment x : string) :
  item_reference segment = Some x -> opens_shipment segment = false.
Proof.
  unfold item_reference. destruct (opens_shipment segment); simpl; congruence.
Qed.

Lemma item_not_fills (segment x : string) :
  item_reference segment = Some x -> fills_shipment segment = false.
Proof.
  unfold item_reference.
  destruct (opens_shipment segment), (fills_shipment segment); simpl; congruence.
Qed.

(** one turn of the loop, unfolded *)
Lemma for_each_cons_effect (st st' : aggregator) (segment : string)
    (rest : list string) :
  for_each _parse_shipments_body st (segment :: rest) = Ok st' ->
  exists st1, effect st segment st1
              /\ for_each _parse_shipments_body st1 rest = Ok st'.
Proof.
  simpl. intros H.
  destruct (_parse_shipments_body_effect st segment) as (st1 & Hb & He).
  rewrite Hb in H. simpl in H. eauto.
Qed.

Lemma add_last_shipment_close (st : aggregator) :
  add_last_shipment st = appended (close_shipment st).
Proof.
  unfold add_last_shipment, close_shipment.
  now destruct (nonempty (current_shipment st)).
Qed.

(** Every record put on [result['shipments']] carries its item list. *)
Lemma aggregate_has_items (segments : list string) (st st' : aggregator) :
  Forall has_items (appended st) ->
  for_each _parse_shipments_body st segments = Ok st' ->
  Forall has_items (add_last_shipment st').
Proof.
  assert (forall s, Forall has_items (appended s) ->
                    Forall has_items (appended (close_shipment s))) as Hclose.
  { intros s Hs. unfold close_shipment.
    destruct (nonempty (current_shipment s)); simpl; [|exact Hs].
    apply Forall_app. split; [exact Hs|].
    constructor; [|constructor]. eexists. apply lookup_insert_eq. }
  revert st. induction segments as [|seg rest IH]; intros st Hst H.
  - simpl in H. injection H as <-. rewrite add_last_shipment_close. now apply Hclose.
  - destruct (for_each_cons_effect _ _ _ _ H) as (st1 & He & Hrest).
    apply (IH st1); [|exact Hrest].
    destruct He; simpl; auto.
Qed.

End Invariants.

(** ** Where the accumulated items go *)

Section Items.

(** The records appended from a given point of the loop on: the first of them
    takes the items accumulated so far, and it is the record being filled at
    that point when there is one. *)
Lemma aggregate_next_flush (segments : list string) (st st' : aggregator) :
  for_each _parse_shipments_body st segments = Ok st' ->
  exists later,
    add_last_shipment st' = (appended st ++ later)%list
    /\ (forall s, head later = Some s ->
                  exists rest, s !! "items" = Some (VList (items st ++ rest)%list))
    /\ (current_shipment st <> ∅ ->
        exists s, head later = Some s /\ dom (current_shipment st) ⊆ dom s).
Proof.
  assert (forall s : aggregator,
             nonempty (current_shipment s) = true ->
             let r := <["items" := VList (items s)]> (current_shipment s) in
             (exists rest, r !! "items" = Some (VList (items s ++ rest)%list))
             /\ dom (current_shipment s) ⊆ dom r) as Hflush.
  { intros s _ r. subst r. split.
    - exists []. rewrite app_nil_r. apply lookup_insert_eq.
    - rewrite dom_insert_L. apply union_subseteq_r. }
  revert st. induction segments as [|seg tl IH]; intros st H.
  - simpl in H. injection H as <-. unfold add_last_shipment.
    destruct (nonempty (current_shipment st)) eqn:E.
    + destruct (Hflush st E) as [Hi Hd]. eexists. split; [reflexivity|].
      split; simpl.
      * intros s [= <-]. exact Hi.
      * intros _. eauto.
    + exists []. rewrite app_nil_r. split; [reflexivity|]. split.
      * intros s [=].
      * intros Hne. apply nonempty_true in Hne. congruence.
  - destruct (for_each_cons_effect _ _ _ _ H) as (st1 & He & Hrest).
    destruct (IH st1 Hrest) as (later1 & Hl & Hi1 & Hd1). clear IH H Hrest.
    assert (forall st0, (st1 = close_shipment st
                         \/ exists key v, st1 = assign key v (close_shipment st)) ->
             st0 = close_shipment st ->
             exists later,
               add_last_shipment st' = (appended st ++ later)%list
               /\ (forall s, head later = Some s ->
                     exists rest, s !! "items" = Some (VList (items st ++ rest)%list))
               /\ (current_shipment st <> ∅ ->
                   exists s, head later = Some s
                             /\ dom (current_shipment st) ⊆ dom s)) as Hopen.
    { intros st0 Hst1 ->.
      assert (appended st1 = appended (close_shipment st)
              /\ items st1 = items (close_shipment st)) as [Ha Hit]
          by (destruct Hst1 as [->|(k & v & ->)]; now split).
      rewrite Ha in Hl. rewrite Hit in Hi1. clear Ha Hit Hst1 Hd1.
      unfold close_shipment in *.
      destruct (nonempty (current_shipment st)) eqn:E; simpl in *.
      - destruct (Hflush st E) as [Hi Hd]. rewrite <- app_assoc in Hl.
        eexists. split; [exact Hl|]. split; simpl.
        + intros s [= <-]. exact Hi.
        + intros _. eauto.
      - exists later1. split; [exact Hl|]. split; [exact Hi1|].
        intros Hne. apply nonempty_true in Hne. congruence. }
    destruct He as [p n Ho Hp Hn | Ho Hlen | key v Hf | x Hx | Ho Hf Hx].
    + apply (Hopen _ (or_intror (ex_intro _ _ (ex_intro _ _ eq_refl))) eq_refl).
    + apply (Hopen _ (or_introl eq_refl) eq_refl).
    + exists later1. simpl in *. split; [exact Hl|]. split; [exact Hi1|].
      intros Hne. destruct Hd1 as (s & Hs & Hd); [apply insert_non_empty|].
      exists s. split; [exact Hs|]. rewrite dom_insert_L in Hd.
      etrans; [apply union_subseteq_r | exact Hd].
    + exists later1. simpl in *. split; [exact Hl|]. split; [|exact Hd1].
      intros s Hs. destruct (Hi1 s Hs) as [rest Hrest].
      exists (x :: rest). now rewrite <- app_assoc in Hrest.
    + exists later1. auto.
Qed.

End Items.

(** ** The branch a segment takes *)

Section Branches.

Lemma prefix_empty (s : string) : String.prefix "" s = true.
Proof. now destruct s. Qed.

(** a segment starts with at most one of two prefixes neither of which
    starts with the other *)
Lemma startswith_other (p q s : string) :
  startswith s p = true -> startswith p q = false -> startswith q p = false ->
  startswith s q = false.
Proof.
  unfold startswith. revert q s.
  induction p as [|a p IH]; intros q s Hs Hpq Hqp.
  - now rewrite prefix_empty in Hqp.
  - destruct q as [|c q]; [now rewrite prefix_empty in Hpq|].
    destruct s as [|b s]; [discriminate|].
    simpl in *.
    destruct (ascii_dec a b) as [->|]; [|discriminate].
    destruct (ascii_dec c b) as [->|]; [|reflexivity].
    destruct (ascii_dec b b) as [_|]; [|congruence].
    now apply (IH q s).
Qed.

Ltac take_branch H :=
  cbv zeta;
  repeat match goal with
         | |- context [startswith ?s ?q] =>
             rewrite (startswith_other _ q s H eq_refl eq_refl)
         end;
  rewrite ?H; simpl orb; cbv iota.

Lemma _parse_shipments_body_NAD_CN (st : aggregator) (segment : string) :
  startswith segment "NAD+CN" = true ->
  _parse_shipments_body st segment
  = let* address := _parse_address (split "+" segment) "" in
    Ok (assign "consignee" (VDict address) st).
Proof. intros H. unfold _parse_shipments_body. take_branch H. reflexivity. Qed.

Lemma _parse_shipments_body_DIM (st : aggregator) (segment : string) :
  startswith segment "DIM+2+CMT" = true ->
  _parse_shipments_body st segment
  = let parts := split "+" segment in
    let* p := index parts 2 in
    let* dims :=
      if contains ":" p then
        let* p := index parts 2 in Ok (from1 (split ":" p))
      else Ok [] in
    let dimensions :=
      match dims with
      | [] => ""
      | _ :: _ => join "x" dims ++ " cm"
      end in
    Ok (assign "dimensions" (VStr dimensions) st).
Proof. intros H. unfold _parse_shipments_body. take_branch H. reflexivity. Qed.

Lemma _parse_parties_body_named (pts : gmap string pyval)
    (segment prefix role default_name : string) :
  In (prefix, role, default_name) named_parties ->
  startswith segment prefix = true ->
  _parse_parties_body pts segment
  = let* address := _parse_address (split "+" segment) default_name in
    Ok (<[role := VDict address]> pts).
Proof.
  intros Hin Hpre. destruct Hin as [[= <- <- <-]|[[= <- <- <-]|[]]];
    unfold _parse_parties_body; take_branch Hpre; reflexivity.
Qed.

End Branches.

(** * The decoders *)

(** C4, as amended.  [_format_date] returns its argument on every string
    shorter than 8 characters and the rearranged slices on every longer one
    (it has no failing case).  On eight digits YYYYMMDD the result is the
    10-character DD.MM.YYYY, and decoding that result again gives YY.M..DD.M,
    a different string: the decoder is not idempotent there. *)
Theorem _format_date_short_and_date8 (s : string) :
  ((String.length s < 8)%nat -> _format_date s = s)
  /\ ((8 <= String.length s)%nat ->
      _format_date s
      = slice 6 8 s ++ "." ++ slice 4 6 s ++ "." ++ slice 0 4 s)
  /\ (is_date8 s = true ->
      String.length (_format_date s) = 10%nat
      /\ _format_date (_format_date s)
         = slice 0 2 s ++ "." ++ slice 5 6 s ++ ".." ++ slice 6 8 s ++ "."
           ++ slice 4 5 s
      /\ _format_date (_format_date s) <> _format_date s).
Proof.
  unfold _format_date. split; [|split].
  - intros H. apply Nat.leb_gt in H. now rewrite H.
  - intros H. apply Nat.leb_le in H. now rewrite H.
  - unfold is_date8. intros [Hlen Hdigits]%andb_true_iff.
    apply Nat.eqb_eq in Hlen.
    destruct s as [|c0 [|c1 [|c2 [|c3 [|c4 [|c5 [|c6 [|c7 [|c8 s]]]]]]]]];
      try discriminate Hlen.
    simpl in Hdigits.
    repeat (apply andb_true_iff in Hdigits as [? Hdigits]).
    repeat split.
    intros E. vm_compute in E. injection E as -> -> <- <- _ _ _ _.
    vm_compute in H3. discriminate H3.
Qed.

Lemma _format_date_short_and_date8_witness :
  _format_date "2025" = "2025"
  /\ _format_date "20251017" = "17.10.2025"
  /\ _format_date (_format_date "20251017") <> _format_date "20251017".
Proof.
  split; [|split].
  - apply (proj1 (_format_date_short_and_date8 "2025")). simpl. lia.
  - apply (proj1 (proj2 (_format_date_short_and_date8 "20251017"))). simpl. lia.
  - apply (proj2 (proj2 (_format_date_short_and_date8 "20251017"))). reflexivity.
Defined.

Lemma _format_date_twice :
  is_date8 "20251017" = true
  /\ _format_date "20251017" = "17.10.2025"
  /\ _format_date (_format_date "20251017") = "20.0..17.1".
Proof. repeat split. Qed.

(** C6.  On a field list with fewer than 10 fields [_parse_address] returns,
    and an attribute is a key of the returned mapping exactly when the list
    reaches its position: an attribute past the end of the list is absent,
    not present with an empty string. *)
Theorem _parse_address_short (parts : list string) (default_name : string) :
  (length parts < 10)%nat ->
  exists address,
    _parse_address parts default_name = Ok address
    /\ (address !! "name" = None <-> (length parts < 5)%nat)
    /\ (address !! "street" = None <-> (length parts < 6)%nat)
    /\ (address !! "city" = None <-> (length parts < 7)%nat)
    /\ (address !! "district" = None <-> (length parts < 8)%nat)
    /\ (address !! "postal_code" = None <-> (length parts < 9)%nat)
    /\ address !! "country" = None.
Proof.
  intros Hlen.
  destruct (_parse_address_fields parts default_name)
    as (a & Ha & H1 & H2 & H3 & H4 & H5 & H6).
  exists a. split; [exact Ha|].
  rewrite H1, H2, H3, H4, H5, H6, !fmap_None, !lookup_ge_None.
  repeat split; intros; lia.
Qed.

Lemma _parse_address_short_witness :
  exists address,
    _parse_address ["NAD"; "CN"; ""; "SEL"; ""; "Kemal"] "" = Ok address
    /\ address !! "city" = None
    /\ address !! "country" = None.
Proof.
  destruct (_parse_address_short ["NAD"; "CN"; ""; "SEL"; ""; "Kemal"] "")
    as (a & Ha & _ & _ & Hcity & _ & _ & Hcountry); [simpl; lia|].
  exists a. split; [exact Ha|].
  split; [apply Hcity; simpl; lia | exact Hcountry].
Defined.

(** C7.  For a shipper (NAD+SF) or invoicee (NAD+IV) segment the decoded
    Address is stored under the role; its name is the default display name
    when field 5 is present and empty, the raw field when it is present and
    not empty, and absent when the segment has no field 5. *)
Theorem _parse_parties_default_name (pts : gmap string pyval)
    (segment prefix role default_name : string) :
  In (prefix, role, default_name) named_parties ->
  startswith segment prefix = true ->
  exists address,
    _parse_parties_body pts segment = Ok (<[role := VDict address]> pts)
    /\ (split "+" segment !! 4%nat = Some "" ->
        address !! "name" = Some default_name)
    /\ (forall raw, split "+" segment !! 4%nat = Some raw -> raw <> "" ->
                    address !! "name" = Some raw)
    /\ (split "+" segment !! 4%nat = None -> address !! "name" = None).
Proof.
  intros Hin Hpre. rewrite (_parse_parties_body_named _ _ _ _ _ Hin Hpre).
  destruct (_parse_address_fields (split "+" segment) default_name)
    as (a & -> & Hname & _).
  exists a. split; [reflexivity|]. rewrite Hname.
  split; [|split].
  - now intros ->.
  - intros raw -> Hraw. simpl. now destruct raw.
  - now intros ->.
Qed.

Lemma _parse_parties_default_name_witness :
  (exists address,
      _parse_parties_body ∅ "NAD+SF+::9+++Nokra caddesi"
      = Ok (<["shipper" := VDict address]> ∅)
      /\ address !! "name" = Some "WTAM")
  /\ (exists address,
        _parse_parties_body ∅ "NAD+IV+::9++WTAM EU+Clichy"
        = Ok (<["invoicee" := VDict address]> ∅)
        /\ address !! "name" = Some "WTAM EU").
Proof.
  split.
  - destruct (_parse_parties_default_name ∅ "NAD+SF+::9+++Nokra caddesi"
                "NAD+SF" "shipper" "WTAM") as (a & Ha & Hblank & _);
      [left; reflexivity | reflexivity |].
    exists a. split; [exact Ha | apply Hblank; reflexivity].
  - destruct (_parse_parties_default_name ∅ "NAD+IV+::9++WTAM EU+Clichy"
                "NAD+IV" "invoicee" "AMAZON EU SARL") as (a & Ha & _ & Hraw & _);
      [right; left; reflexivity | reflexivity |].
    exists a. split; [exact Ha | apply Hraw; [reflexivity | discriminate]].
Defined.

(** C10.  For a consignee (NAD+CN) segment with at least 5 fields whose fifth
    field is empty, the aggregator stores an Address under [consignee] whose
    [name] key is present with the empty string as value. *)
Theorem consignee_blank_name (st : aggregator) (segment : string) :
  startswith segment "NAD+CN" = true ->
  split "+" segment !! 4%nat = Some "" ->
  exists address,
    _parse_shipments_body st segment
    = Ok (assign "consignee" (VDict address) st)
    /\ address !! "name" = Some "".
Proof.
  intros Hpre Hblank. rewrite (_parse_shipments_body_NAD_CN _ _ Hpre).
  destruct (_parse_address_fields (split "+" segment) "") as (a & -> & Hname & _).
  exists a. split; [reflexivity|]. now rewrite Hname, Hblank.
Qed.

Lemma consignee_blank_name_witness :
  exists address,
    _parse_shipments_body (mkAggregator ∅ [] []) "NAD+CN+::9+++Kemal"
    = Ok (assign "consignee" (VDict address) (mkAggregator ∅ [] []))
    /\ address !! "name" = Some "".
Proof.
  apply (consignee_blank_name (mkAggregator ∅ [] []) "NAD+CN+::9+++Kemal");
    reflexivity.
Defined.

(** C8.  The segment DIM+2+CMT:10.0:50.0:12.0 sets the dimensions of the
    record being filled to "10.0x50.0x12.0 cm", also end to end; in general a
    DIM+2+CMT segment joins the sub-fields after the first of its third field
    with "x" and appends " cm", and sets the empty string when that field has
    no sub-field separator. *)
Theorem _parse_shipments_dimensions (st : aggregator) :
  _parse_shipments_body st "DIM+2+CMT:10.0:50.0:12.0"
  = Ok (assign "dimensions" (VStr "10.0x50.0x12.0 cm") st)
  /\ (exists doc shipment,
         parse_iftmin "GID+1+5:PK'DIM+2+CMT:10.0:50.0:12.0'" = Ok doc
         /\ shipments doc = [shipment]
         /\ shipment !! "dimensions" = Some (VStr "10.0x50.0x12.0 cm"))
  /\ (forall segment p,
         startswith segment "DIM+2+CMT" = true ->
         split "+" segment !! 2%nat = Some p ->
         _parse_shipments_body st segment
         = Ok (assign "dimensions"
                 (VStr (if contains ":" p
                        then join "x" (from1 (split ":" p)) ++ " cm"
                        else "")) st)).
Proof.
  split; [reflexivity|]. split.
  - eexists _, _. split; [vm_compute; reflexivity|].
    split; [reflexivity | vm_compute; reflexivity].
  - intros segment p Hpre Hp.
    rewrite (_parse_shipments_body_DIM _ _ Hpre). cbv zeta.
    rewrite (index_Some _ _ _ Hp). simpl.
    destruct (contains ":" p) eqn:E; [|reflexivity].
    simpl. pose proof (split_length_contains ":" p E) as Hlen.
    destruct (split ":" p) as [|a [|b l]]; simpl in Hlen; try lia.
    reflexivity.
Qed.

Lemma _parse_shipments_dimensions_witness :
  _parse_shipments_body (mkAggregator ∅ [] []) "DIM+2+CMT"
  = Ok (assign "dimensions" (VStr "") (mkAggregator ∅ [] [])).
Proof.
  apply (proj2 (proj2 (_parse_shipments_dimensions (mkAggregator ∅ [] [])))
           "DIM+2+CMT" "CMT"); reflexivity.
Defined.

(** * The parser *)

(** C2, where the code departs from the claim.  The envelope segment
    UNB+A+B has three fields; [_parse_header] subscripts its fourth, and
    [parse_iftmin] raises IndexError instead of returning a Document. *)
Theorem parse_iftmin_short_envelope_raises :
  tokenize "UNB+A+B'" = ["UNB+A+B"]
  /\ split "+" "UNB+A+B" = ["UNB"; "A"; "B"]
  /\ _parse_header ["UNB+A+B"] empty_document = Raise IndexError
  /\ parse_iftmin "UNB+A+B'" = Raise IndexError.
Proof. repeat split. Qed.

(** C9.  The shipments pass returns on every input, and every record on the
    shipments sequence, also of any Document [parse_iftmin] returns, has the
    key [items] with a list as value. *)
Theorem shipments_have_items (data : string) :
  (exists doc',
      _parse_shipments (tokenize data) empty_document = Ok doc'
      /\ Forall has_items (shipments doc'))
  /\ (forall doc, parse_iftmin data = Ok doc -> Forall has_items (shipments doc)).
Proof.
  destruct (_parse_shipments_returns (tokenize data) empty_document)
    as (st & Hst & Hdoc').
  assert (Forall has_items (add_last_shipment st)) as Hitems.
  { refine (aggregate_has_items (tokenize data) _ st _ Hst). constructor. }
  split.
  - eexists. split; [exact Hdoc' | exact Hitems].
  - intros doc Hdoc. now rewrite (parse_iftmin_same_shipments _ _ _ Hdoc Hdoc').
Qed.

Lemma shipments_have_items_witness :
  exists doc, parse_iftmin "GID+1+5:PK'GID+2'" = Ok doc
              /\ Forall has_items (shipments doc).
Proof.
  eexists. split; [vm_compute; reflexivity|].
  apply (proj2 (shipments_have_items "GID+1+5:PK'GID+2'")).
  vm_compute; reflexivity.
Defined.

(** The shipments of a returned Document, from the final state of the loop. *)
Lemma parse_iftmin_aggregate (data : string) (doc : Document) (st : aggregator) :
  parse_iftmin data = Ok doc ->
  aggregate [] (tokenize data) = Ok st ->
  shipments doc = add_last_shipment st.
Proof.
  intros Hdoc Hst.
  destruct (_parse_shipments_returns (tokenize data) empty_document)
    as (st' & Hst' & Hdoc').
  simpl in Hst'. rewrite Hst in Hst'. injection Hst' as <-.
  now rewrite (parse_iftmin_same_shipments _ _ _ Hdoc Hdoc').
Qed.

(** C5, as amended.  At the end of the segments the aggregator does what an
    opening segment makes it do: when the record being filled is not empty
    it gets the accumulated item list and is appended to the shipments, so the
    shipments of the Document end with that record. *)
Theorem last_shipment_added (data : string) :
  exists st,
    aggregate [] (tokenize data) = Ok st
    /\ (forall doc, parse_iftmin data = Ok doc ->
                    shipments doc = add_last_shipment st)
    /\ (current_shipment st <> ∅ ->
        add_last_shipment st
        = (appended st
             ++ [<["items" := VList (items st)]> (current_shipment st)])%list)
    /\ (forall segment,
           opens_shipment segment = true ->
           exists st', _parse_shipments_body st segment = Ok st'
                       /\ appended st' = add_last_shipment st).
Proof.
  destruct (aggregate_returns [] (tokenize data)) as [st Hst].
  exists st. split; [exact Hst|]. split; [|split].
  - intros doc Hdoc. exact (parse_iftmin_aggregate _ _ _ Hdoc Hst).
  - intros Hne. apply nonempty_true in Hne.
    unfold add_last_shipment. now rewrite Hne.
  - intros segment Hopen.
    destruct (_parse_shipments_body_effect st segment) as (st' & Hb & He).
    exists st'. split; [exact Hb|]. rewrite add_last_shipment_close.
    destruct He as [p n Ho Hp Hn | Ho Hlen | key v Hf | x Hx | Ho Hf Hx];
      try reflexivity.
    + rewrite (fills_not_opens _ Hf) in Hopen. discriminate.
    + rewrite (item_not_opens _ _ Hx) in Hopen. discriminate.
    + rewrite Ho in Hopen. discriminate.
Qed.

Lemma last_shipment_added_witness :
  exists doc,
    parse_iftmin "GID+1+5:PK'RFF+VP+B0B8TH8P45'" = Ok doc
    /\ shipments doc
       = [<["items" := VList ["B0B8TH8P45"]]>
            (<["total_packages" := VStr "5"]> ∅)].
Proof.
  destruct (last_shipment_added "GID+1+5:PK'RFF+VP+B0B8TH8P45'")
    as (st & Hst & Hdoc & Hlast & _).
  vm_compute in Hst. injection Hst as <-.
  assert (parse_iftmin "GID+1+5:PK'RFF+VP+B0B8TH8P45'"
          = Ok (mkDocument ∅ ∅
                  [<["items" := VList ["B0B8TH8P45"]]>
                     (<["total_packages" := VStr "5"]> ∅)] ∅)) as Hparse
      by (vm_compute; reflexivity).
  eexists. split; [exact Hparse|].
  rewrite (Hdoc _ Hparse). apply Hlast. discriminate.
Defined.

(** C5 fails as stated: a shipment opened by a segment without a third field
    leaves the record empty, so at the end of the segments neither it nor the
    item accumulated for it reaches the Document. *)
Lemma last_shipment_bare_open_lost :
  tokenize "GID+1'RFF+VP+X'" = ["GID+1"; "RFF+VP+X"]
  /\ opens_shipment "GID+1" = true
  /\ item_reference "RFF+VP+X" = Some "X"
  /\ aggregate [] (tokenize "GID+1'RFF+VP+X'") = Ok (mkAggregator ∅ ["X"] [])
  /\ parse_iftmin "GID+1'RFF+VP+X'" = Ok (mkDocument ∅ ∅ [] ∅).
Proof. repeat split. Qed.

(** C1 fails as stated: two consecutive opening segments without a third
    field append no shipment, and a consignee segment alone appends one. *)
Lemma parse_iftmin_bare_opens :
  (count_opens (tokenize "GID+1'GID+2'") = 2%nat
   /\ exists doc, parse_iftmin "GID+1'GID+2'" = Ok doc /\ shipments doc = [])
  /\ (count_opens (tokenize "NAD+CN'") = 0%nat
      /\ exists doc, parse_iftmin "NAD+CN'" = Ok doc
                     /\ length (shipments doc) = 1%nat).
Proof.
  repeat split; eexists; (split; [vm_compute; reflexivity | reflexivity]).
Qed.

(** C3 fails as stated: an item reference read before any shipment is open
    is kept and lands in the first shipment opened afterwards. *)
Lemma item_reference_before_open_kept :
  tokenize "RFF+VP+X'GID+1+5:PK'" = ["RFF+VP+X"; "GID+1+5:PK"]
  /\ aggregate [] [] = Ok (mkAggregator ∅ [] [])
  /\ item_reference "RFF+VP+X" = Some "X"
  /\ parse_iftmin "RFF+VP+X'GID+1+5:PK'"
     = Ok (mkDocument ∅ ∅
             [<["items" := VList ["X"]]> (<["total_packages" := VStr "5"]> ∅)]
             ∅).
Proof. repeat split; vm_compute; reflexivity. Qed.

(** * Further properties *)

(** ** The tokenizer *)

Section Tokenizer.

Lemma contains_all_chars (c : ascii) (s : string) :
  contains c s = false <-> all_chars (fun a => negb (Ascii.eqb a c)) s = true.
Proof.
  induction s as [|a s IH]; simpl; [tauto|].
  destruct (Ascii.eqb a c); simpl; [split; discriminate | exact IH].
Qed.

Lemma all_chars_impl (P Q : ascii -> bool) (s : string) :
  (forall c, P c = true -> Q c = true) ->
  all_chars P s = true -> all_chars Q s = true.
Proof.
  intros HPQ. induction s as [|a s IH]; simpl; [reflexivity|].
  intros [Ha Hs]%andb_true_iff. rewrite (HPQ a Ha). simpl. auto.
Qed.

Lemma all_chars_app (P : ascii -> bool) (s t : string) :
  all_chars P (s ++ t) = all_chars P s && all_chars P t.
Proof.
  induction s as [|a s IH]; [reflexivity|].
  change (String a s ++ t) with (String a (s ++ t)). simpl.
  now rewrite IH, andb_assoc.
Qed.

(** The fields of [s.split(sep)] hold the characters of [s] other than the
    separators, and no separator. *)
Lemma split_all_chars (P : ascii -> bool) (sep : ascii) (s : string) :
  Forall (fun f => all_chars P f = true) (split sep s)
  <-> all_chars (fun c => Ascii.eqb c sep || P c) s = true.
Proof.
  induction s as [|c s IH].
  - simpl. split; [reflexivity | repeat constructor].
  - rewrite split_cons. simpl.
    rewrite split_unfold, Forall_cons in IH.
    destruct (Ascii.eqb c sep); simpl.
    + rewrite <- IH, split_unfold, !Forall_cons. simpl. tauto.
    + rewrite andb_true_iff, <- IH, Forall_cons. simpl.
      rewrite andb_true_iff. tauto.
Qed.

Lemma split_no_sep (sep : ascii) (s : string) :
  Forall (fun f => contains sep f = false) (split sep s).
Proof.
  eapply Forall_impl; [|intros f Hf; apply contains_all_chars; exact Hf].
  apply split_all_chars. induction s as [|c s IH]; simpl; [reflexivity|].
  rewrite IH. now destruct (Ascii.eqb c sep).
Qed.

Lemma split_keeps_absent (c sep : ascii) (s : string) :
  contains c s = false -> Forall (fun f => contains c f = false) (split sep s).
Proof.
  intros H%contains_all_chars.
  eapply Forall_impl; [|intros f Hf; apply contains_all_chars; exact Hf].
  apply split_all_chars. revert H. apply all_chars_impl.
  intros a ->. apply orb_true_r.
Qed.

Lemma replace_all_chars (P : ascii -> bool) (a b : ascii) (s : string) :
  all_chars P (replace a b s)
  = all_chars (fun c => if Ascii.eqb c a then P b else P c) s.
Proof.
  induction s as [|c s IH]; simpl; [reflexivity|].
  rewrite IH. now destruct (Ascii.eqb c a).
Qed.

Lemma replace_absent (a b : ascii) (s : string) :
  contains a s = false -> replace a b s = s.
Proof.
  induction s as [|c s IH]; simpl; [reflexivity|].
  destruct (Ascii.eqb c a); [discriminate|]. intros H. now rewrite IH.
Qed.

Lemma lstrip_empty (s : string) :
  lstrip s = "" <-> all_chars isspace s = true.
Proof.
  induction s as [|c s IH]; simpl; [tauto|].
  destruct (isspace c); simpl; [exact IH | split; discriminate].
Qed.

Lemma rstrip_lstrip_empty (s : string) : rstrip (lstrip s) = "" -> lstrip s = "".
Proof.
  induction s as [|c s IH]; simpl; [reflexivity|].
  destruct (isspace c) eqn:E; [exact IH|].
  simpl. rewrite E. destruct (rstrip s); discriminate.
Qed.

(** [s.strip()] is empty exactly on white space *)
Lemma strip_empty (s : string) :
  truthy (strip s) = false <-> all_chars isspace s = true.
Proof.
  rewrite <- lstrip_empty. unfold strip. split.
  - intros H. apply rstrip_lstrip_empty. now destruct (rstrip (lstrip s)).
  - now intros ->.
Qed.

End Tokenizer.

Section TokenizerMore.

Lemma all_chars_ext (P Q : ascii -> bool) (s : string) :
  (forall c, P c = Q c) -> all_chars P s = all_chars Q s.
Proof.
  intros H. induction s as [|a s IH]; simpl; [reflexivity|]. now rewrite H, IH.
Qed.

Lemma all_chars_true (P : ascii -> bool) (s : string) :
  (forall c, P c = true) -> all_chars P s = true.
Proof.
  intros H. induction s as [|a s IH]; simpl; [reflexivity|]. now rewrite H, IH.
Qed.

Lemma replace_removes (a b : ascii) (s : string) :
  Ascii.eqb b a = false -> contains a (replace a b s) = false.
Proof.
  intros Hba. apply contains_all_chars. rewrite replace_all_chars.
  apply all_chars_true. intros c. destruct (Ascii.eqb c a); [now rewrite Hba | reflexivity].
Qed.

Lemma replace_app (a b : ascii) (s t : string) :
  replace a b (s ++ t) = replace a b s ++ replace a b t.
Proof.
  induction s as [|c s IH]; [reflexivity|].
  change (String c s ++ t) with (String c (s ++ t)). simpl. now rewrite IH.
Qed.

Lemma join_cons (sep x y : string) (l : list string) :
  join sep (x :: y :: l) = x ++ sep ++ join sep (y :: l).
Proof. reflexivity. Qed.

Lemma split_absent (sep : ascii) (s : string) :
  contains sep s = false -> split sep s = [s].
Proof.
  induction s as [|c s IH]; [reflexivity|].
  simpl. rewrite split_cons. destruct (Ascii.eqb c sep); [discriminate|].
  intros H. specialize (IH H). rewrite split_unfold in IH.
  injection IH as -> ->. reflexivity.
Qed.

Lemma split_app_sep (sep : ascii) (s t : string) :
  contains sep s = false ->
  split sep (s ++ String sep t) = s :: split sep t.
Proof.
  induction s as [|c s IH].
  - intros _. change ("" ++ String sep t) with (String sep t).
    rewrite split_cons. now rewrite Ascii.eqb_refl.
  - simpl. change (String c s ++ String sep t) with (String c (s ++ String sep t)).
    rewrite split_cons. destruct (Ascii.eqb c sep); [discriminate|].
    intros H. specialize (IH H). rewrite split_unfold in IH.
    injection IH as -> ->. reflexivity.
Qed.

(** joining with the separator and splitting again gives the fields back *)
Lemma split_join (sep : ascii) (l : list string) :
  l <> [] -> Forall (fun f => contains sep f = false) l ->
  split sep (join (String sep "") l) = l.
Proof.
  induction l as [|x l IH]; [congruence|]. intros _ H.
  apply Forall_cons in H as [Hx Hl].
  destruct l as [|y l]; [now apply split_absent|].
  rewrite join_cons. change (String sep "" ++ ?t) with (String sep t).
  rewrite (split_app_sep _ _ _ Hx). f_equal. now apply IH.
Qed.

Lemma replace_join (a b : ascii) (l : list string) :
  Forall (fun f => contains a f = false) l ->
  replace a b (join (String a "") l) = join (String b "") l.
Proof.
  induction l as [|x l IH]; [reflexivity|]. intros H.
  apply Forall_cons in H as [Hx Hl].
  destruct l as [|y l]; [now apply replace_absent|].
  rewrite !join_cons, replace_app, (replace_absent _ _ _ Hx).
  change (String a "" ++ ?t) with (String a t). simpl.
  rewrite Ascii.eqb_refl. f_equal. f_equal. now apply IH.
Qed.

Lemma filter_all {A : Type} (f : A -> bool) (l : list A) :
  Forall (fun x => f x = true) l -> List.filter f l = l.
Proof.
  induction 1 as [|x l Hx _ IH]; simpl; [reflexivity|]. now rewrite Hx, IH.
Qed.

Lemma filter_none {A : Type} (f : A -> bool) (l : list A) :
  List.filter f l = [] <-> Forall (fun x => f x = false) l.
Proof.
  induction l as [|x l IH]; simpl.
  - split; [constructor | reflexivity].
  - rewrite Forall_cons. destruct (f x); [|tauto].
    split; [discriminate | intros [[=] _]].
Qed.

End TokenizerMore.

Lemma tokenize_clean (data : string) : Forall clean_segment (tokenize data).
Proof.
  unfold tokenize. apply Forall_forall. intros seg Hin.
  apply list_elem_of_In, filter_In in Hin as [Hin Htruthy].
  split; [exact Htruthy|]. split.
  - pose proof (split_keeps_absent apostrophe newline
                  (replace apostrophe newline data)
                  (replace_removes apostrophe newline data eq_refl)) as H.
    rewrite Forall_forall in H. apply H, list_elem_of_In, Hin.
  - pose proof (split_no_sep newline (replace apostrophe newline data)) as H.
    rewrite Forall_forall in H. apply H, list_elem_of_In, Hin.
Qed.

(** the segments [tokenize] can return are read back as they are *)
Lemma tokenize_join (segments : list string) :
  Forall clean_segment segments ->
  tokenize (join "'" segments) = segments.
Proof.
  intros H. destruct segments as [|x l]; [reflexivity|].
  unfold tokenize.
  change "'" with (String apostrophe "").
  rewrite replace_join.
  - rewrite split_join; [|discriminate|].
    + apply filter_all. eapply Forall_impl; [exact H|]. now intros seg [? _].
    + eapply Forall_impl; [exact H|]. now intros seg (_ & _ & ?).
  - eapply Forall_impl; [exact H|]. now intros seg (_ & ? & _).
Qed.

(** X1.  A segment of the tokenized input is never blank and holds neither
    a segment terminator nor a line feed (character 10), the two characters
    the input is cut at. *)
Theorem tokenize_segments (data segment : string) :
  In segment (tokenize data) ->
  strip segment <> ""
  /\ contains apostrophe segment = false
  /\ contains newline segment = false.
Proof.
  intros Hin. pose proof (tokenize_clean data) as H.
  rewrite Forall_forall in H.
  destruct (H segment) as (Hs & Ha & Hn); [now apply list_elem_of_In|].
  split; [|split; assumption].
  intros E. rewrite E in Hs. discriminate.
Qed.

Lemma tokenize_segments_witness :
  strip "BGM+87 " <> ""
  /\ contains apostrophe "BGM+87 " = false
  /\ contains newline "BGM+87 " = false.
Proof.
  apply (tokenize_segments " 'BGM+87 '  'UNT+1'" "BGM+87 ").
  vm_compute. left. reflexivity.
Defined.

(** X2.  Writing the segments of a message back with the segment terminator
    between them and tokenizing again gives the same segments, so the
    rewritten message is parsed like the original. *)
Theorem tokenize_round_trip (data : string) :
  tokenize (join "'" (tokenize data)) = tokenize data
  /\ parse_iftmin (join "'" (tokenize data)) = parse_iftmin data.
Proof.
  assert (tokenize (join "'" (tokenize data)) = tokenize data) as H.
  { pose proof (tokenize_clean data) as Hclean.
    destruct (tokenize data) as [|segment rest] eqn:E; [reflexivity|].
    now apply tokenize_join. }
  split; [exact H|]. unfold parse_iftmin. now rewrite H.
Qed.

(** X3.  The input has no segment exactly when it consists of white space
    and segment terminators only, and [parse_iftmin] then returns the empty
    Document. *)
Theorem tokenize_nothing (data : string) :
  (tokenize data = [] <-> all_chars separates data = true)
  /\ (all_chars separates data = true -> parse_iftmin data = Ok empty_document).
Proof.
  assert (tokenize data = [] <-> all_chars separates data = true) as Hiff.
  { unfold tokenize. rewrite filter_none.
    transitivity (Forall (fun f => all_chars isspace f = true)
                    (split newline (replace apostrophe newline data))).
    { apply Forall_iff. intros f. apply strip_empty. }
    rewrite split_all_chars, replace_all_chars.
    erewrite all_chars_ext; [reflexivity|].
    intros c. unfold separates. simpl.
    destruct (Ascii.eqb_spec c apostrophe) as [->|_]; [reflexivity|].
    rewrite orb_false_r.
    destruct (Ascii.eqb_spec c newline) as [->|_]; reflexivity. }
  split; [exact Hiff|].
  intros H. apply Hiff in H. unfold parse_iftmin. rewrite H. reflexivity.
Qed.

Lemma tokenize_nothing_witness :
  parse_iftmin "  '
 ' " = Ok empty_document.
Proof. apply (proj2 (tokenize_nothing _)). reflexivity. Defined.

(** ** The four passes together *)

Section Sections.

Lemma for_each_invariant {S : Type} (body : S -> string -> result S)
    (P : S -> Prop) (segments : list string) :
  (forall st seg st', In seg segments -> P st -> body st seg = Ok st' -> P st') ->
  forall st st', P st -> for_each body st segments = Ok st' -> P st'.
Proof.
  induction segments as [|seg l IH]; intros Hbody st st' HP H; simpl in H.
  - now injection H as <-.
  - destruct (body st seg) as [st1|e] eqn:E; [|discriminate]. simpl in H.
    apply (IH (fun st0 seg0 st0' Hin => Hbody st0 seg0 st0' (or_intror Hin))
              st1 st'); [|exact H].
    apply (Hbody st seg st1); [now left | exact HP | exact E].
Qed.

(** Each section of a returned Document is computed from the segments
    alone. *)
Lemma parse_iftmin_sections (data : string) (doc : Document) :
  parse_iftmin data = Ok doc ->
  for_each _parse_header_body ∅ (tokenize data) = Ok (header doc)
  /\ for_each _parse_parties_body ∅ (tokenize data) = Ok (parties doc)
  /\ (exists st, aggregate [] (tokenize data) = Ok st
                 /\ shipments doc = add_last_shipment st)
  /\ for_each _parse_summary_body ∅ (tokenize data) = Ok (summary doc).
Proof.
  unfold parse_iftmin, _parse_header, _parse_parties, _parse_shipments,
    _parse_summary. cbv zeta. simpl.
  destruct (for_each _parse_header_body ∅ (tokenize data)) as [h|]; [|discriminate].
  simpl.
  destruct (for_each _parse_parties_body ∅ (tokenize data)) as [p|]; [|discriminate].
  simpl.
  destruct (aggregate [] (tokenize data)) as [st|]; [|discriminate].
  simpl.
  destruct (for_each _parse_summary_body ∅ (tokenize data)) as [sm|]; [|discriminate].
  simpl. intros [= <-]. simpl. eauto 10.
Qed.

End Sections.

(** X4.  [parse_iftmin] raises exactly when some segment starts with UNB and
    has fewer than four fields; on every other input it returns a
    Document. *)
Theorem parse_iftmin_raises (data : string) :
  (parse_iftmin data = Raise IndexError
   <-> exists segment,
        In segment (tokenize data)
        /\ startswith segment "UNB" = true
        /\ (length (split "+" segment) < 4)%nat)
  /\ ((exists doc, parse_iftmin data = Ok doc)
      <-> forall segment,
          In segment (tokenize data) ->
          startswith segment "UNB" = true ->
          (4 <= length (split "+" segment))%nat).
Proof.
  pose proof (parse_iftmin_cases data) as Hc.
  destruct (existsb short_envelope (tokenize data)) eqn:E.
  - apply existsb_exists in E as (seg & Hin & Hs).
    unfold short_envelope in Hs.
    apply andb_true_iff in Hs as [Hunb Hlen%Nat.ltb_lt].
    split; split.
    + intros _. eauto.
    + intros _. exact Hc.
    + intros [doc Hdoc]. rewrite Hdoc in Hc. discriminate.
    + intros H. specialize (H seg Hin Hunb). lia.
  - destruct Hc as (doc & _ & Hdoc & _).
    assert (forall seg, In seg (tokenize data) -> startswith seg "UNB" = true ->
                        (4 <= length (split "+" seg))%nat) as Hok.
    { intros seg Hin Hunb.
      destruct (le_lt_dec 4 (length (split "+" seg))) as [|Hlt]; [assumption|].
      assert (existsb short_envelope (tokenize data) = true) as Hex.
      { apply existsb_exists. exists seg. split; [exact Hin|].
        unfold short_envelope. rewrite Hunb. now apply Nat.ltb_lt. }
      congruence. }
    split; split.
    + intros H. rewrite Hdoc in H. discriminate.
    + intros (seg & Hin & Hunb & Hlen). specialize (Hok seg Hin Hunb). lia.
    + intros _. exact Hok.
    + intros _. eauto.
Qed.

Lemma parse_iftmin_raises_witness :
  exists doc, parse_iftmin "UNB+UNOC:3+5450534000000:14+MNGMFN:14'BGM+87'" = Ok doc.
Proof.
  apply (proj2 (parse_iftmin_raises _)).
  intros segment Hin. vm_compute in Hin.
  destruct Hin as [<-|[<-|[]]]; intros H; [vm_compute; lia | discriminate H].
Defined.

(** X5.  The four passes can run in any order: each reads the segments and
    its own section only.  Run last to first they give what [parse_iftmin]
    gives, the exception included. *)
Theorem passes_commute (data : string) :
  (let segments := tokenize data in
   let* result := _parse_summary segments empty_document in
   let* result := _parse_shipments segments result in
   let* result := _parse_parties segments result in
   _parse_header segments result)
  = parse_iftmin data.
Proof.
  unfold parse_iftmin, _parse_header, _parse_parties, _parse_shipments,
    _parse_summary, empty_document. cbv zeta. simpl.
  destruct (for_each_returns _parse_summary_body (tokenize data)
              (fun st seg _ => _parse_summary_body_returns st seg) ∅) as [sm Hsm].
  destruct (for_each_returns _parse_parties_body (tokenize data)
              (fun st seg _ => _parse_parties_body_returns st seg) ∅) as [p Hp].
  destruct (aggregate_returns [] (tokenize data)) as [st Hst].
  destruct (for_each _parse_header_body ∅ (tokenize data)) as [h|e] eqn:Hh;
    repeat (cbn [Py.bind header parties shipments summary];
            rewrite ?Hsm, ?Hp, ?Hst, ?Hh);
    reflexivity.
Qed.

(** ** What the aggregator assigns *)

Section Assignments.

Lemma bind_inv {A B : Type} (m : result A) (k : A -> result B) (b : B) :
  Py.bind m k = Ok b -> exists a, m = Ok a /\ k a = Ok b.
Proof. destruct m as [a|e]; simpl; [eauto | discriminate]. Qed.

Lemma address_field_keys (parts : list string) (n : nat) (key : string)
    (f : string -> string) (a a' : gmap string string) :
  address_field parts n key f a = Ok a' ->
  forall k, is_Some (a' !! k) -> k = key \/ is_Some (a !! k).
Proof.
  unfold address_field. destruct (n <=? length parts)%nat.
  - intros (p & _ & [= <-])%bind_inv k Hk.
    apply lookup_insert_is_Some in Hk as [<-|[_ Hk]]; auto.
  - intros [= <-]. auto.
Qed.

Lemma _parse_address_keys (parts : list string) (default_name : string)
    (address : gmap string string) :
  _parse_address parts default_name = Ok address -> address_schema address.
Proof.
  unfold _parse_address. cbv zeta.
  intros (a1 & H1 & (a2 & H2 & (a3 & H3 & (a4 & H4 & (a5 & H5 &
            (a6 & H6 & [= <-])%bind_inv)%bind_inv)%bind_inv)%bind_inv)%bind_inv)%bind_inv.
  intros k Hk. unfold address_keys. simpl.
  destruct (address_field_keys _ _ _ _ _ _ H6 k Hk) as [->|Hk6]; [tauto|].
  destruct (address_field_keys _ _ _ _ _ _ H5 k Hk6) as [->|Hk5]; [tauto|].
  destruct (address_field_keys _ _ _ _ _ _ H4 k Hk5) as [->|Hk4]; [tauto|].
  destruct (address_field_keys _ _ _ _ _ _ H3 k Hk4) as [->|Hk3]; [tauto|].
  destruct (address_field_keys _ _ _ _ _ _ H2 k Hk3) as [->|Hk2]; [tauto|].
  destruct (address_field_keys _ _ _ _ _ _ H1 k Hk2) as [->|Hk1]; [tauto|].
  rewrite lookup_empty in Hk1. now destruct Hk1.
Qed.

Ltac prefix_tests :=
  unfold item_reference, fills_shipment, opens_shipment;
  repeat match goal with
         | H : _ = true |- _ => rewrite H
         | H : _ = false |- _ => rewrite H
         end;
  simpl.

Ltac assigns key v :=
  right; left; split; [prefix_tests; reflexivity|];
  exists key, v; split; [simpl; tauto|]; intros st; reflexivity.

(** What one turn of the loop does, by the segment alone: the segment fixes
    the key and the value assigned, whatever the record being filled. *)
Lemma _parse_shipments_body_cases (segment : string) :
  (opens_shipment segment = true
   /\ (package_count segment = None <-> (length (split "+" segment) <= 2)%nat)
   /\ forall st,
       _parse_shipments_body st segment
       = Ok match package_count segment with
            | Some n => assign "total_packages" (VStr n) (close_shipment st)
            | None => close_shipment st
            end)
  \/ (fills_shipment segment = true
      /\ exists key v,
          fill_entry key v
          /\ forall st, _parse_shipments_body st segment = Ok (assign key v st))
  \/ (exists x,
         item_reference segment = Some x
         /\ forall st,
             _parse_shipments_body st segment
             = Ok (mkAggregator (current_shipment st) (items st ++ [x])
                     (appended st)))
  \/ (opens_shipment segment = false
      /\ fills_shipment segment = false
      /\ item_reference segment = None
      /\ forall st, _parse_shipments_body st segment = Ok st).
Proof.
  unfold _parse_shipments_body, package_count. cbv zeta.
  destruct (startswith segment "GID+1" || startswith segment "GID+2") eqn:Hopen.
  { left. split; [exact Hopen|].
    destruct (2 <? length (split "+" segment))%nat eqn:Hlen.
    - apply Nat.ltb_lt in Hlen.
      destruct (index_lt _ _ Hlen) as (p & Hp & Hp').
      destruct (index_lt _ _ (split_length_pos ":" p)) as (n & Hn & Hn').
      rewrite Hp, Hp', Hn'. simpl. rewrite Hn. simpl.
      split; [split; [discriminate | lia] | reflexivity].
    - apply Nat.ltb_ge in Hlen.
      rewrite (lookup_ge_None_2 _ _ Hlen). split; [tauto | reflexivity]. }
  destruct (startswith segment "NAD+CN") eqn:H1.
  { destruct (_parse_address_fields (split "+" segment) "") as (a & Ha & _).
    rewrite Ha. simpl.
    right; left; split; [prefix_tests; reflexivity|].
    exists "consignee", (VDict a).
    split; [split; [reflexivity | exact (_parse_address_keys _ _ _ Ha)]|].
    reflexivity. }
  destruct (startswith segment "RFF+CR") eqn:H2.
  { destruct (field_or_empty_returns (split "+" segment) 2) as [v ->].
    simpl. assigns "tracking_number" (VStr v). }
  destruct (startswith segment "RFF+TB") eqn:H3.
  { destruct (field_or_empty_returns (split "+" segment) 2) as [v ->].
    simpl. assigns "order_id" (VStr v). }
  destruct (startswith segment "RFF+TE") eqn:H4.
  { destruct (field_or_empty_returns (split "+" segment) 2) as [v ->].
    simpl. assigns "phone" (VStr v). }
  destruct (startswith segment "DTM+17") eqn:H5.
  { pose proof (startswith_split_length "+" _ _ H5) as Hlen.
    change (length (split "+" "DTM+17")) with 2%nat in Hlen.
    destruct (index_lt (split "+" segment) 1) as (p & Hp & _); [lia|].
    destruct (subfield_returns (split "+" segment) 1 1 (index (split "+" segment) 1))
      as [v ->]; [lia | lia | eauto |].
    simpl. assigns "delivery_date" (VStr (_format_date v)). }
  destruct (startswith segment "MEA+WX+B+KG") eqn:H6.
  { destruct (field_or_empty_returns (split "+" segment) 3) as [v ->].
    simpl. assigns "weight" (VStr v). }
  destruct (startswith segment "DIM+2+CMT") eqn:H7.
  { pose proof (startswith_split_length "+" _ _ H7) as Hlen.
    change (length (split "+" "DIM+2+CMT")) with 3%nat in Hlen.
    destruct (index_lt (split "+" segment) 2) as (p & Hp & _); [lia|].
    rewrite Hp. simpl.
    destruct (contains ":" p); simpl;
      (right; left; split; [prefix_tests; reflexivity|]);
      eexists "dimensions", (VStr _); (split; [simpl; tauto|]); reflexivity. }
  destruct (startswith segment "RFF+VP") eqn:H8.
  { destruct (2 <? length (split "+" segment))%nat eqn:Hlen.
    - apply Nat.ltb_lt in Hlen.
      destruct (index_lt _ _ Hlen) as (p & Hp & Hp').
      rewrite Hp. simpl. right; right; left. exists p.
      split; [prefix_tests; exact Hp' | reflexivity].
    - apply Nat.ltb_ge in Hlen.
      right; right; right. repeat split; prefix_tests; try reflexivity.
      apply lookup_ge_None_2. lia. }
  right; right; right. repeat split; prefix_tests; reflexivity.
Qed.

End Assignments.

(** ** The records of the shipments sequence *)

Section Records.

Lemma for_each_cons_inv {S : Type} (body : S -> string -> result S)
    (st st' : S) (segment : string) (rest : list string) :
  for_each body st (segment :: rest) = Ok st' ->
  exists st1, body st segment = Ok st1 /\ for_each body st1 rest = Ok st'.
Proof. simpl. apply bind_inv. Qed.

Lemma opens_not_item (segment : string) :
  opens_shipment segment = true -> item_reference segment = None.
Proof. unfold item_reference. now intros ->. Qed.

Lemma fills_not_item (segment : string) :
  fills_shipment segment = true -> item_reference segment = None.
Proof.
  unfold item_reference. intros ->. now rewrite andb_false_r.
Qed.

Lemma fill_entry_key (key : string) (v : pyval) :
  fill_entry key v -> key <> "total_packages" /\ key <> "items".
Proof.
  destruct v as [s|a|l]; simpl.
  - intros [<-|[<-|[<-|[<-|[<-|[<-|[]]]]]]]; split; discriminate.
  - intros [-> _]. split; discriminate.
  - intros [].
Qed.

Lemma fill_entry_shipment_entry (key : string) (v : pyval) :
  fill_entry key v -> shipment_entry key v.
Proof. destruct v; simpl; tauto. Qed.

Lemma record_ok_insert (key : string) (v : pyval) (record : gmap string pyval) :
  fill_entry key v \/ (key = "total_packages" /\ exists n, v = VStr n) ->
  record_ok record -> record_ok (<[key := v]> record).
Proof.
  intros Hv Hr k w. rewrite lookup_insert_Some.
  intros [[<- <-]|[_ Hk]]; [exact Hv | exact (Hr k w Hk)].
Qed.

Lemma record_ok_flush (record : gmap string pyval) (l : list string) :
  record_ok record -> record <> ∅ ->
  shipment_schema (<["items" := VList l]> record).
Proof.
  intros Hr Hne. split.
  - intros k w. rewrite lookup_insert_Some.
    intros [[<- <-]|[_ Hk]]; [reflexivity|].
    destruct (Hr k w Hk) as [H|[-> [n ->]]];
      [now apply fill_entry_shipment_entry | simpl; tauto].
  - destruct (map_choose _ Hne) as (k & w & Hk). exists k. split.
    + destruct (Hr k w Hk) as [H|[-> _]]; [|discriminate].
      now apply fill_entry_key in H.
    + rewrite lookup_insert_is_Some. destruct (decide ("items" = k)); eauto.
Qed.

Lemma close_shipment_schema (st : aggregator) :
  record_ok (current_shipment st) ->
  Forall shipment_schema (appended st) ->
  record_ok (current_shipment (close_shipment st))
  /\ Forall shipment_schema (appended (close_shipment st)).
Proof.
  intros Hr Ha. unfold close_shipment.
  destruct (nonempty (current_shipment st)) eqn:E; simpl; [|now split].
  split.
  - intros k w Hk. now rewrite lookup_empty in Hk.
  - apply Forall_app. split; [exact Ha|].
    constructor; [|constructor].
    apply record_ok_flush; [exact Hr | now apply nonempty_true].
Qed.

Lemma aggregate_schema (segments : list string) (st st' : aggregator) :
  record_ok (current_shipment st) ->
  Forall shipment_schema (appended st) ->
  for_each _parse_shipments_body st segments = Ok st' ->
  Forall shipment_schema (add_last_shipment st').
Proof.
  revert st. induction segments as [|seg rest IH]; intros st Hr Ha H.
  - simpl in H. injection H as <-. rewrite add_last_shipment_close.
    now apply close_shipment_schema.
  - apply for_each_cons_inv in H as (st1 & Hb & Hrest).
    destruct (close_shipment_schema st Hr Ha) as [Hr' Ha'].
    destruct (_parse_shipments_body_cases seg)
      as [(_ & _ & Hc)|[(_ & k & v & Hkv & Hc)|[(x & _ & Hc)|(_ & _ & _ & Hc)]]];
      rewrite Hc in Hb; injection Hb as <-.
    + destruct (package_count seg) as [n|].
      * refine (IH (assign "total_packages" (VStr n) (close_shipment st))
                  _ Ha' Hrest). simpl.
        apply record_ok_insert; [right; eauto | exact Hr'].
      * exact (IH _ Hr' Ha' Hrest).
    + refine (IH (assign k v st) _ Ha Hrest). simpl.
      apply record_ok_insert; [now left | exact Hr].
    + exact (IH (mkAggregator _ _ _) Hr Ha Hrest).
    + exact (IH st Hr Ha Hrest).
Qed.

Lemma items_of_flush (record : gmap string pyval) (l : list string) :
  items_of (<["items" := VList l]> record) = l.
Proof. unfold items_of. now rewrite lookup_insert_eq. Qed.

(** The items on the appended records, then the accumulator, are the
    identifiers read, in the order read. *)
Lemma aggregate_items (segments : list string) (st st' : aggregator) :
  for_each _parse_shipments_body st segments = Ok st' ->
  (concat (items_of <$> appended st') ++ items st')%list
  = ((concat (items_of <$> appended st) ++ items st)
       ++ item_references segments)%list.
Proof.
  assert (forall s, (concat (items_of <$> appended (close_shipment s))
                       ++ items (close_shipment s))%list
                    = (concat (items_of <$> appended s) ++ items s)%list)
    as Hclose.
  { intros s. unfold close_shipment.
    destruct (nonempty (current_shipment s)); simpl; [|reflexivity].
    rewrite fmap_app, concat_app. simpl.
    now rewrite items_of_flush, !app_nil_r. }
  revert st. induction segments as [|seg rest IH]; intros st H.
  - simpl in H. injection H as <-. unfold item_references. simpl.
    now rewrite app_nil_r.
  - apply for_each_cons_inv in H as (st1 & Hb & Hrest).
    rewrite (IH st1 Hrest). unfold item_references. simpl omap.
    destruct (_parse_shipments_body_cases seg)
      as [(Ho & _ & Hc)|[(Hf & k & v & _ & Hc)|[(x & Hx & Hc)|(_ & _ & Hx & Hc)]]];
      rewrite Hc in Hb; injection Hb as <-.
    + rewrite (opens_not_item _ Ho).
      destruct (package_count seg); cbn [assign appended items];
        now rewrite Hclose.
    + rewrite (fills_not_item _ Hf). reflexivity.
    + rewrite Hx. cbn [appended items]. now rewrite <- !app_assoc.
    + rewrite Hx. reflexivity.
Qed.

End Records.

(** X6.  Every record of the shipments sequence holds only the nine keys of
    a shipment, each with a value of its kind: an Address with Address keys
    under [consignee], a list under [items], a string under the others; and
    it holds some entry besides the item list. *)
Theorem shipments_schema (data : string) (doc : Document) :
  parse_iftmin data = Ok doc ->
  Forall shipment_schema (shipments doc).
Proof.
  intros (_ & _ & (st & Hst & ->) & _)%parse_iftmin_sections.
  refine (aggregate_schema _ _ _ _ _ Hst); simpl.
  - intros k v Hk. now rewrite lookup_empty in Hk.
  - constructor.
Qed.

Lemma shipments_schema_witness :
  exists doc,
    parse_iftmin "GID+1+5:PK'NAD+CN+::9++SEL'RFF+VP+B0B8'" = Ok doc
    /\ Forall shipment_schema (shipments doc).
Proof.
  eexists. split; [vm_compute; reflexivity|].
  apply (shipments_schema "GID+1+5:PK'NAD+CN+::9++SEL'RFF+VP+B0B8'").
  vm_compute; reflexivity.
Defined.

(** X7.  No item identifier is duplicated or reordered: the item lists of
    the shipments, one after the other, are the identifiers of the
    item-reference segments in the order read, up to the identifiers still in
    the accumulator at the end, which are dropped when no record is being
    filled then. *)
Theorem items_in_order (data : string) :
  exists st,
    aggregate [] (tokenize data) = Ok st
    /\ (forall doc, parse_iftmin data = Ok doc ->
                    shipments doc = add_last_shipment st)
    /\ item_references (tokenize data)
       = (concat (items_of <$> add_last_shipment st)
            ++ (if nonempty (current_shipment st) then [] else items st))%list.
Proof.
  destruct (aggregate_returns [] (tokenize data)) as [st Hst].
  exists st. split; [exact Hst|]. split.
  - intros doc Hdoc. exact (parse_iftmin_aggregate _ _ _ Hdoc Hst).
  - pose proof (aggregate_items _ _ _ Hst) as H. simpl in H. rewrite <- H.
    unfold add_last_shipment.
    destruct (nonempty (current_shipment st)); [|reflexivity].
    rewrite fmap_app, concat_app. simpl.
    now rewrite items_of_flush, !app_nil_r.
Qed.

(** ** The order of the shipments *)

Section Order.

Lemma package_count_lookup (segment : string) :
  (2 < length (split "+" segment))%nat -> is_Some (package_count segment).
Proof.
  intros H. unfold package_count.
  destruct (index_lt _ _ H) as (p & _ & ->).
  destruct (index_lt _ _ (split_length_pos ":" p)) as (n & _ & ->). eauto.
Qed.

(** The package counts of the records at the end, by whether a record is
    being filled at the start. *)
Lemma aggregate_package_counts (segments : list string) (st st' : aggregator) :
  opens_with_count segments = true ->
  for_each _parse_shipments_body st segments = Ok st' ->
  (current_shipment st <> ∅ ->
   (fun s => s !! "total_packages") <$> add_last_shipment st'
   = (((fun s => s !! "total_packages") <$> appended st)
        ++ (current_shipment st !! "total_packages")
        :: ((fun g => VStr <$> package_count g)
              <$> List.filter opens_shipment segments))%list)
  /\ (current_shipment st = ∅ -> starts_closed segments = true ->
      (fun s : gmap string pyval => s !! "total_packages") <$> add_last_shipment st'
      = (((fun s => s !! "total_packages") <$> appended st)
           ++ ((fun g => VStr <$> package_count g)
                 <$> List.filter opens_shipment segments))%list).
Proof.
  revert st. induction segments as [|seg rest IH]; intros st Hcount H.
  - simpl in H. injection H as <-. unfold add_last_shipment. simpl. split.
    + intros Hne. apply nonempty_true in Hne. rewrite Hne, fmap_app. simpl.
      now rewrite lookup_insert_ne.
    + intros He _. apply nonempty_false in He. rewrite He. now rewrite app_nil_r.
  - apply for_each_cons_inv in H as (st1 & Hb & Hrest).
    simpl in Hcount. apply andb_true_iff in Hcount as [Hseg Hcount].
    destruct (IH st1 Hcount Hrest) as [IHa IHb]. simpl.
    destruct (_parse_shipments_body_cases seg)
      as [(Ho & Hnone & Hc)|[(Hf & k & v & Hkv & Hc)|[(x & Hx & Hc)|(Ho & Hf & _ & Hc)]]];
      rewrite Hc in Hb; injection Hb as <-.
    + rewrite Ho in *. simpl in Hseg. apply Nat.ltb_lt in Hseg.
      destruct (package_count_lookup _ Hseg) as [n Hn]. rewrite Hn in *.
      rewrite IHa by (simpl; apply insert_non_empty). simpl.
      rewrite Hn, lookup_insert_eq. simpl. unfold close_shipment.
      split.
      * intros Hne. apply nonempty_true in Hne. rewrite Hne. simpl.
        rewrite fmap_app, <- app_assoc. simpl.
        rewrite lookup_insert_ne by discriminate. reflexivity.
      * intros He _. apply nonempty_false in He. rewrite He. reflexivity.
    + rewrite (fills_not_opens _ Hf).
      rewrite IHa by (simpl; apply insert_non_empty). simpl.
      destruct (fill_entry_key _ _ Hkv) as [Hk _].
      rewrite lookup_insert_ne by congruence.
      split; [reflexivity|]. intros _. rewrite Hf. discriminate.
    + rewrite (item_not_opens _ _ Hx), (item_not_fills _ _ Hx). simpl in *.
      split; [exact IHa | exact IHb].
    + rewrite Ho, Hf. simpl. split; [exact IHa | exact IHb].
Qed.

(** The loop does not look at the records already appended. *)
Lemma for_each_shift (ships : list (gmap string pyval)) (segments : list string)
    (st st' : aggregator) :
  for_each _parse_shipments_body st segments = Ok st' ->
  for_each _parse_shipments_body
    (mkAggregator (current_shipment st) (items st) (ships ++ appended st))
    segments
  = Ok (mkAggregator (current_shipment st') (items st') (ships ++ appended st')).
Proof.
  assert (forall s,
             close_shipment
               (mkAggregator (current_shipment s) (items s) (ships ++ appended s))
             = mkAggregator (current_shipment (close_shipment s))
                 (items (close_shipment s))
                 (ships ++ appended (close_shipment s))) as Hclose.
  { intros s. unfold close_shipment. simpl.
    destruct (nonempty (current_shipment s)); simpl; [|reflexivity].
    now rewrite app_assoc. }
  revert st. induction segments as [|seg rest IH]; intros st H.
  - simpl in H. now injection H as <-.
  - apply for_each_cons_inv in H as (st1 & Hb & Hrest).
    simpl. rewrite <- (IH st1 Hrest).
    destruct (_parse_shipments_body_cases seg)
      as [(_ & _ & Hc)|[(_ & k & v & _ & Hc)|[(x & _ & Hc)|(_ & _ & _ & Hc)]]];
      rewrite Hc in Hb; injection Hb as <-; rewrite Hc; try reflexivity.
    rewrite Hclose. now destruct (package_count seg).
Qed.

Lemma add_last_shipment_shift (ships : list (gmap string pyval)) (st : aggregator) :
  add_last_shipment
    (mkAggregator (current_shipment st) (items st) (ships ++ appended st))
  = (ships ++ add_last_shipment st)%list.
Proof.
  unfold add_last_shipment. simpl.
  destruct (nonempty (current_shipment st)); [|reflexivity].
  now rewrite app_assoc.
Qed.

(** Whether anything is appended at all. *)
Lemma aggregate_nothing (segments : list string) (st st' : aggregator) :
  for_each _parse_shipments_body st segments = Ok st' ->
  add_last_shipment st' = []
  <-> appended st = [] /\ current_shipment st = ∅
      /\ forallb (fun seg => negb (sets_field seg)) segments = true.
Proof.
  assert (forall s, appended (close_shipment s) = []
                    /\ current_shipment (close_shipment s) = ∅
                    <-> appended s = [] /\ current_shipment s = ∅) as Hclose.
  { intros s. unfold close_shipment.
    destruct (nonempty (current_shipment s)) eqn:E; simpl; [|tauto].
    apply nonempty_true in E. split.
    - intros [H _]. now apply app_eq_nil in H as [_ [=]].
    - tauto. }
  revert st. induction segments as [|seg rest IH]; intros st H.
  - simpl in H. injection H as <-. rewrite add_last_shipment_close.
    specialize (Hclose st). unfold close_shipment in *.
    destruct (nonempty (current_shipment st)) eqn:E; simpl in *.
    + apply nonempty_true in E. split; [|tauto].
      intros H. now apply app_eq_nil in H as [_ [=]].
    + apply nonempty_false in E. tauto.
  - apply for_each_cons_inv in H as (st1 & Hb & Hrest).
    rewrite (IH st1 Hrest). cbn [forallb].
    set (others := forallb _ rest). unfold sets_field.
    destruct (_parse_shipments_body_cases seg)
      as [(Ho & Hnone & Hc)|[(Hf & k & v & _ & Hc)|[(x & Hx & Hc)|(Ho & Hf & _ & Hc)]]];
      rewrite Hc in Hb; injection Hb as <-.
    + rewrite Ho. unfold fills_shipment. rewrite Ho. simpl.
      destruct (package_count seg) as [n|] eqn:En.
      * destruct (2 <? length (split "+" seg))%nat eqn:El.
        -- simpl. split; [|intros (_ & _ & [=])].
           intros (_ & He & _). simpl in He.
           now apply insert_non_empty in He.
        -- apply Nat.ltb_ge in El. apply Hnone in El. congruence.
      * assert (length (split "+" seg) <= 2)%nat as El by now apply Hnone.
        apply Nat.ltb_ge in El. rewrite El. simpl.
        specialize (Hclose st). tauto.
    + rewrite Hf. simpl. split; [|intros (_ & _ & [=])].
      intros (_ & He & _). simpl in He. now apply insert_non_empty in He.
    + rewrite (item_not_opens _ _ Hx), (item_not_fills _ _ Hx). simpl. tauto.
    + rewrite Ho, Hf. simpl. tauto.
Qed.

End Order.

(** X8.  Shipments keep the order of the input: when every opening segment
    has a third field and no filling segment comes before the first opening
    segment, the package counts of the shipments are, in order, those of the
    opening segments. *)
Theorem shipments_in_order (data : string) :
  opens_with_count (tokenize data) = true ->
  starts_closed (tokenize data) = true ->
  forall doc,
    parse_iftmin data = Ok doc ->
    (fun s => s !! "total_packages") <$> shipments doc
    = (fun g => VStr <$> package_count g)
        <$> List.filter opens_shipment (tokenize data).
Proof.
  intros Hcount Hclosed doc (_ & _ & (st & Hst & ->) & _)%parse_iftmin_sections.
  destruct (aggregate_package_counts _ _ _ Hcount Hst) as [_ H].
  exact (H eq_refl Hclosed).
Qed.

Lemma shipments_in_order_witness :
  exists doc,
    parse_iftmin "GID+1+5:PK'RFF+CR+Z1'GID+2+1:PK'" = Ok doc
    /\ (fun s => s !! "total_packages") <$> shipments doc
       = [Some (VStr "5"); Some (VStr "1")].
Proof.
  eexists. split; [vm_compute; reflexivity|].
  refine (shipments_in_order "GID+1+5:PK'RFF+CR+Z1'GID+2+1:PK'"
            eq_refl eq_refl _ _).
  vm_compute; reflexivity.
Defined.

(** X9.  Shipment groups are independent.  Cut the segments before an
    opening segment; unless item identifiers are pending with no record being
    filled at the cut, the shipments of the whole are the shipments of the
    first part followed by the shipments of the second part. *)
Theorem shipments_of_parts (pre post : list string) (segment : string)
    (st : aggregator) :
  opens_shipment segment = true ->
  aggregate [] pre = Ok st ->
  current_shipment st <> ∅ \/ items st = [] ->
  exists d1 d2 d,
    _parse_shipments pre empty_document = Ok d1
    /\ _parse_shipments (segment :: post) empty_document = Ok d2
    /\ _parse_shipments (pre ++ segment :: post) empty_document = Ok d
    /\ shipments d = (shipments d1 ++ shipments d2)%list.
Proof.
  intros Hopen Hpre Hst.
  destruct (_parse_shipments_returns (segment :: post) empty_document)
    as (st2 & Hst2 & Hd2).
  unfold _parse_shipments at 1 3. simpl shipments. rewrite Hpre, Hd2. simpl.
  eexists _, _, _. split; [reflexivity|]. split; [reflexivity|].
  simpl in Hst2. unfold aggregate in *.
  rewrite for_each_app, Hpre. simpl Py.bind.
  apply for_each_cons_inv in Hst2 as (s2 & Hb2 & Hpost).
  destruct (_parse_shipments_body_cases segment)
    as [(_ & _ & Hc)|[(Hf & _)|[(x & Hx & _)|(Ho & _)]]].
  - cbn [for_each]. rewrite Hc. rewrite Hc in Hb2. injection Hb2 as <-.
    simpl Py.bind.
    assert (close_shipment st = mkAggregator ∅ [] (add_last_shipment st ++ []))
      as ->.
    { unfold close_shipment, add_last_shipment. rewrite app_nil_r.
      destruct (nonempty (current_shipment st)) eqn:E; [reflexivity|].
      apply nonempty_false in E. destruct Hst as [Hne|Hi]; [congruence|].
      destruct st as [c i a]. simpl in *. now subst. }
    change (close_shipment (mkAggregator ∅ [] []))
      with (mkAggregator ∅ [] []) in Hpost.
    pose proof (for_each_shift (add_last_shipment st) _ _ _ Hpost) as Hs.
    destruct (package_count segment) as [n|];
      unfold assign in Hs |- *;
      cbn [current_shipment items appended] in Hs |- *;
      rewrite Hs; cbn [Py.bind]; (split; [reflexivity|]);
      cbn [shipments]; apply add_last_shipment_shift.
  - rewrite (fills_not_opens _ Hf) in Hopen. discriminate.
  - rewrite (item_not_opens _ _ Hx) in Hopen. discriminate.
  - rewrite Ho in Hopen. discriminate.
Qed.

Lemma shipments_of_parts_witness :
  exists d1 d2 d,
    _parse_shipments ["GID+1+5:PK"; "RFF+VP+A"] empty_document = Ok d1
    /\ _parse_shipments ["GID+2+1:PK"; "RFF+VP+B"] empty_document = Ok d2
    /\ _parse_shipments
         (["GID+1+5:PK"; "RFF+VP+A"] ++ ["GID+2+1:PK"; "RFF+VP+B"])
         empty_document = Ok d
    /\ shipments d = (shipments d1 ++ shipments d2)%list.
Proof.
  apply (shipments_of_parts ["GID+1+5:PK"; "RFF+VP+A"] ["RFF+VP+B"]
           "GID+2+1:PK"
           (mkAggregator (<["total_packages" := VStr "5"]> ∅) ["A"] []));
    [reflexivity | vm_compute; reflexivity | left; discriminate].
Defined.

(** X10.  The Document has no shipment exactly when no segment puts an entry
    into a record: no filling segment, and no opening segment with a third
    field.  Item references alone, or opening segments without a third field,
    give no shipment. *)
Theorem no_shipment (data : string) (doc : Document) :
  parse_iftmin data = Ok doc ->
  shipments doc = []
  <-> forall segment, In segment (tokenize data) -> sets_field segment = false.
Proof.
  intros (_ & _ & (st & Hst & ->) & _)%parse_iftmin_sections.
  rewrite (aggregate_nothing _ _ _ Hst). simpl.
  rewrite forallb_forall. split.
  - intros (_ & _ & H) seg Hin. apply negb_true_iff. now apply H.
  - intros H. repeat split. intros seg Hin. apply negb_true_iff. now apply H.
Qed.

Lemma no_shipment_witness :
  exists doc, parse_iftmin "GID+1'RFF+VP+X'GID+2'" = Ok doc /\ shipments doc = [].
Proof.
  eexists. split; [vm_compute; reflexivity|].
  refine (proj2 (no_shipment "GID+1'RFF+VP+X'GID+2'" _ _) _);
    [vm_compute; reflexivity|].
  intros segment Hin. vm_compute in Hin.
  destruct Hin as [<-|[<-|[<-|[]]]]; reflexivity.
Defined.

(** ** Header, parties and summary *)

Section OtherSections.

Ltac take_branch H :=
  cbv zeta;
  repeat match goal with
         | |- context [startswith ?s ?q] =>
             rewrite (startswith_other _ q s H eq_refl eq_refl)
         end;
  rewrite ?H; simpl orb; cbv iota.

Lemma index_In {A : Type} (l : list A) (i : nat) (x : A) :
  index l i = Ok x -> In x l.
Proof.
  unfold index. destruct (l !! i) eqn:E; [|discriminate].
  intros [= <-]. apply list_elem_of_In. eapply list_elem_of_lookup_2, E.
Qed.

Lemma field_or_empty_default (parts : list string) (i : nat) :
  field_or_empty parts i = Ok (default "" (parts !! i)).
Proof.
  unfold field_or_empty. destruct (i <? length parts)%nat eqn:E.
  - apply Nat.ltb_lt in E. destruct (index_lt _ _ E) as (x & -> & ->). reflexivity.
  - apply Nat.ltb_ge in E. now rewrite (lookup_ge_None_2 _ _ E).
Qed.

(** the first sub-field of a field of a segment is atomic *)
Lemma subfield_first_atomic (segment : string) (i : nat) (v : string) :
  subfield (split "+" segment) i 0 (index (split "+" segment) i) = Ok v ->
  atomic v.
Proof.
  unfold subfield. intros (p & Hp & H)%bind_inv.
  assert (contains "+" p = false) as Hplus.
  { pose proof (split_no_sep "+" segment) as Hall.
    rewrite Forall_forall in Hall. apply Hall, list_elem_of_In, (index_In _ _ _ Hp). }
  destruct (contains ":" p) eqn:E.
  - apply bind_inv in H as (q & Hq & Hv). rewrite Hp in Hq. injection Hq as <-.
    apply index_In, list_elem_of_In in Hv. split.
    + pose proof (split_no_sep ":" p) as Hall.
      rewrite Forall_forall in Hall. now apply Hall.
    + pose proof (split_keeps_absent "+" ":" p Hplus) as Hall.
      rewrite Forall_forall in Hall. now apply Hall.
  - rewrite Hp in H. injection H as <-. now split.
Qed.

Lemma _parse_header_body_BGM (hdr : gmap string string) (segment : string) :
  startswith segment "BGM" = true ->
  _parse_header_body hdr segment
  = Ok (<["doc_number" := default "" (split "+" segment !! 2%nat)]> hdr).
Proof.
  intros H. unfold _parse_header_body. take_branch H.
  now rewrite field_or_empty_default.
Qed.

(** What one turn of the header loop leaves alone, and what it adds. *)
Lemma _parse_header_body_entries (hdr hdr' : gmap string string)
    (segment : string) :
  _parse_header_body hdr segment = Ok hdr' ->
  forall key v,
    hdr' !! key = Some v ->
    hdr !! key = Some v
    \/ (In key ["sender"; "receiver"] /\ atomic v)
    \/ (key = "doc_number" /\ startswith segment "BGM" = true)
    \/ In key ["message_date"; "currency"].
Proof.
  unfold _parse_header_body. cbv zeta.
  destruct (startswith segment "UNB").
  { intros (s & Hs & (r & Hr & [= <-])%bind_inv)%bind_inv key v.
    apply subfield_first_atomic in Hs, Hr.
    rewrite !lookup_insert_Some.
    intros [[H1 H2]|[_ [[H1 H2]|[_ H]]]]; subst; [right; left ..|now left];
      (split; [simpl; auto | assumption]). }
  destruct (startswith segment "BGM").
  { intros (d & _ & [= <-])%bind_inv key v. rewrite lookup_insert_Some.
    intros [[H1 H2]|[_ H]]; subst; [|now left]. right; right; left. now split. }
  destruct (startswith segment "DTM+9").
  { intros (d & _ & [= <-])%bind_inv key v. rewrite lookup_insert_Some.
    intros [[H1 H2]|[_ H]]; subst; [|now left]. do 3 right. simpl. auto. }
  destruct (startswith segment "CUX"); [|intros [= <-]; auto].
  destruct (2 <? length (split "+" segment))%nat; [|intros [= <-]; auto].
  intros (c & _ & [= <-])%bind_inv key v. rewrite lookup_insert_Some.
  intros [[H1 H2]|[_ H]]; subst; [|now left]. do 3 right. simpl. auto.
Qed.

Lemma _parse_address_name (parts : list string) (default_name : string)
    (address : gmap string string) :
  default_name <> "" ->
  _parse_address parts default_name = Ok address ->
  forall n, address !! "name" = Some n -> n <> "".
Proof.
  intros Hd Ha n.
  destruct (_parse_address_fields parts default_name) as (a & Ha' & Hname & _).
  rewrite Ha in Ha'. injection Ha' as <-. rewrite Hname.
  destruct (parts !! 4%nat) as [p|]; [|discriminate].
  simpl. intros [= <-]. now destruct p.
Qed.

Lemma _parse_parties_body_entries (pts pts' : gmap string pyval)
    (segment : string) :
  _parse_parties_body pts segment = Ok pts' ->
  (forall key v, pts !! key = Some v -> party_entry key v) ->
  forall key v, pts' !! key = Some v -> party_entry key v.
Proof.
  unfold _parse_parties_body. cbv zeta. intros H Hpts.
  destruct (startswith segment "NAD+SF").
  { apply bind_inv in H as (a & Ha & [= <-]). intros key v.
    rewrite lookup_insert_Some. intros [[<- <-]|[_ Hk]]; [|now apply Hpts].
    split; [now left|]. split; [exact (_parse_address_keys _ _ _ Ha)|].
    apply (_parse_address_name _ _ _) with (2 := Ha). discriminate. }
  destruct (startswith segment "NAD+IV").
  { apply bind_inv in H as (a & Ha & [= <-]). intros key v.
    rewrite lookup_insert_Some. intros [[<- <-]|[_ Hk]]; [|now apply Hpts].
    split; [now right|]. split; [exact (_parse_address_keys _ _ _ Ha)|].
    apply (_parse_address_name _ _ _) with (2 := Ha). discriminate. }
  destruct (startswith segment "LOC+198").
  { apply bind_inv in H as (n & _ & [= <-]). intros key v.
    rewrite lookup_insert_Some. intros [[<- <-]|[_ Hk]]; [reflexivity|].
    now apply Hpts. }
  injection H as <-. exact Hpts.
Qed.

Lemma _parse_summary_body_keys (sm sm' : gmap string string) (segment : string) :
  _parse_summary_body sm segment = Ok sm' ->
  forall key, is_Some (sm' !! key) -> In key summary_keys \/ is_Some (sm !! key).
Proof.
  unfold _parse_summary_body. cbv zeta.
  destruct (startswith segment "CNT+2").
  { intros (v & _ & [= <-])%bind_inv key. rewrite lookup_insert_is_Some.
    intros [H|[_ H]]; subst; [left; simpl; auto | now right]. }
  destruct (startswith segment "CNT+8"); [|intros [= <-]; auto].
  intros (v & _ & [= <-])%bind_inv key. rewrite lookup_insert_is_Some.
  intros [H|[_ H]]; subst; [left; simpl; auto | now right].
Qed.

End OtherSections.

Section LastBGM.

Lemma _parse_header_body_doc_number (hdr hdr' : gmap string string)
    (segment : string) :
  startswith segment "BGM" = false ->
  _parse_header_body hdr segment = Ok hdr' ->
  hdr' !! "doc_number" = hdr !! "doc_number".
Proof.
  unfold _parse_header_body. cbv zeta. intros ->.
  destruct (startswith segment "UNB").
  { intros (s & _ & (r & _ & [= <-])%bind_inv)%bind_inv.
    now rewrite !lookup_insert_ne by discriminate. }
  destruct (startswith segment "DTM+9").
  { intros (d & _ & [= <-])%bind_inv. now rewrite lookup_insert_ne by discriminate. }
  destruct (startswith segment "CUX"); [|now intros [= <-]].
  destruct (2 <? length (split "+" segment))%nat; [|now intros [= <-]].
  intros (c & _ & [= <-])%bind_inv. now rewrite lookup_insert_ne by discriminate.
Qed.

End LastBGM.

(** X11.  The parties section holds nothing but an Address under [shipper]
    and [invoicee] and a string under [node_id]; each Address has Address keys
    only, and its name, when present, is never blank. *)
Theorem parties_schema (data : string) (doc : Document) :
  parse_iftmin data = Ok doc ->
  forall key v, parties doc !! key = Some v -> party_entry key v.
Proof.
  intros (_ & Hp & _)%parse_iftmin_sections.
  refine (for_each_invariant _parse_parties_body
            (fun pts => forall key v, pts !! key = Some v -> party_entry key v)
            (tokenize data) _ ∅ _ _ Hp).
  - intros pts seg pts' _ Hpts Hb. exact (_parse_parties_body_entries _ _ _ Hb Hpts).
  - intros key v Hk. now rewrite lookup_empty in Hk.
Qed.

Lemma parties_schema_witness :
  exists doc,
    parse_iftmin "NAD+SF+::9+++Nokra'LOC+198+WTAM'" = Ok doc
    /\ forall key v, parties doc !! key = Some v -> party_entry key v.
Proof.
  eexists. split; [vm_compute; reflexivity|].
  apply (parties_schema "NAD+SF+::9+++Nokra'LOC+198+WTAM'").
  vm_compute; reflexivity.
Defined.

(** X12.  The header holds only its five keys and the summary only its two;
    the sender and the receiver hold neither a field separator nor a
    sub-field separator. *)
Theorem header_summary_schema (data : string) (doc : Document) :
  parse_iftmin data = Ok doc ->
  (forall key v,
      header doc !! key = Some v ->
      In key header_keys /\ (In key ["sender"; "receiver"] -> atomic v))
  /\ (forall key, is_Some (summary doc !! key) -> In key summary_keys).
Proof.
  intros (Hh & _ & _ & Hs)%parse_iftmin_sections. split.
  - refine (for_each_invariant _parse_header_body
              (fun hdr => forall key v,
                   hdr !! key = Some v ->
                   In key header_keys
                   /\ (In key ["sender"; "receiver"] -> atomic v))
              (tokenize data) _ ∅ _ _ Hh).
    + intros hdr seg hdr' _ Hhdr Hb key v Hk.
      destruct (_parse_header_body_entries _ _ _ Hb key v Hk)
        as [H|[[Hin Hv]|[[-> _]|Hin]]].
      * now apply Hhdr.
      * split; [|now intros _].
        destruct Hin as [<-|[<-|[]]]; simpl; auto.
      * split; [simpl; auto|]. intros [[=]|[[=]|[]]].
      * split; [destruct Hin as [<-|[<-|[]]]; simpl; auto 10|].
        destruct Hin as [<-|[<-|[]]]; intros [[=]|[[=]|[]]].
    + intros key v Hk. now rewrite lookup_empty in Hk.
  - refine (for_each_invariant _parse_summary_body
              (fun sm => forall key, is_Some (sm !! key) -> In key summary_keys)
              (tokenize data) _ ∅ _ _ Hs).
    + intros sm seg sm' _ Hsm Hb key Hk.
      destruct (_parse_summary_body_keys _ _ _ Hb key Hk) as [H|H]; auto.
    + intros key Hk. rewrite lookup_empty in Hk. now destruct Hk.
Qed.

Lemma header_summary_schema_witness :
  exists doc,
    parse_iftmin "UNB+UNOC:3+5450534000000:14+MNGMFN:14'CNT+2:6'" = Ok doc
    /\ header doc !! "sender" = Some "5450534000000"
    /\ atomic "5450534000000".
Proof.
  eexists. split; [vm_compute; reflexivity|]. split; [reflexivity|].
  refine (proj2 (proj1 (header_summary_schema
                          "UNB+UNOC:3+5450534000000:14+MNGMFN:14'CNT+2:6'" _ _)
                   "sender" _ _) _);
    [vm_compute; reflexivity | reflexivity | left; reflexivity].
Defined.

(** X13.  When a message repeats the BGM segment, the last one decides the
    document number: it is the third field of the last segment that starts
    with BGM, or the empty string when that segment has none. *)
Theorem doc_number_last (data : string) (pre post : list string)
    (segment : string) (doc : Document) :
  tokenize data = (pre ++ segment :: post)%list ->
  startswith segment "BGM" = true ->
  (forall s, In s post -> startswith s "BGM" = false) ->
  parse_iftmin data = Ok doc ->
  header doc !! "doc_number" = Some (default "" (split "+" segment !! 2%nat)).
Proof.
  intros Htok Hbgm Hpost (Hh & _)%parse_iftmin_sections.
  rewrite Htok, for_each_app in Hh.
  apply bind_inv in Hh as (h1 & _ & Hh).
  apply for_each_cons_inv in Hh as (h2 & Hb & Hh).
  rewrite (_parse_header_body_BGM _ _ Hbgm) in Hb. injection Hb as <-.
  refine (for_each_invariant _parse_header_body
            (fun hdr => hdr !! "doc_number"
                        = Some (default "" (split "+" segment !! 2%nat)))
            post _ _ _ _ Hh).
  - intros hdr seg hdr' Hin Hhdr Hb.
    now rewrite (_parse_header_body_doc_number _ _ _ (Hpost seg Hin) Hb).
  - apply lookup_insert_eq.
Qed.

Lemma doc_number_last_witness :
  exists doc,
    parse_iftmin "BGM+87+1027+9'BGM+87'CUX+2:EUR'" = Ok doc
    /\ header doc !! "doc_number" = Some "".
Proof.
  eexists. split; [vm_compute; reflexivity|].
  refine (doc_number_last "BGM+87+1027+9'BGM+87'CUX+2:EUR'"
            ["BGM+87+1027+9"] ["CUX+2:EUR"] "BGM+87" _ eq_refl eq_refl _ _);
    [|vm_compute; reflexivity].
  intros s [<-|[]]. reflexivity.
Defined.

(** ** The decoders again *)

(** X14.  On an input of at least 8 characters [_format_date] returns 10
    characters and looks at the first 8 only, and it keeps all of them: two
    such inputs are decoded alike exactly when their first 8 characters
    agree. *)
Theorem _format_date_first8 (s t : string) :
  (8 <= String.length s)%nat ->
  (8 <= String.length t)%nat ->
  String.length (_format_date s) = 10%nat
  /\ _format_date s = _format_date (slice 0 8 s)
  /\ (_format_date s = _format_date t <-> slice 0 8 s = slice 0 8 t).
Proof.
  intros Hs Ht.
  destruct s as [|a0 [|a1 [|a2 [|a3 [|a4 [|a5 [|a6 [|a7 s]]]]]]]];
    simpl in Hs; try lia.
  destruct t as [|b0 [|b1 [|b2 [|b3 [|b4 [|b5 [|b6 [|b7 t]]]]]]]];
    simpl in Ht; try lia.
  clear Hs Ht.
  destruct s, t; vm_compute;
    (split; [reflexivity|]); (split; [reflexivity|]);
    split; intros E; injection E; intros; subst; reflexivity.
Qed.

Lemma _format_date_first8_witness :
  _format_date "202510130023" = _format_date "20251013".
Proof.
  destruct (_format_date_first8 "202510130023" "20251013") as (_ & H & _);
    [simpl; lia | simpl; lia | exact H].
Defined.

(** X15.  [_parse_address] returns on every field list.  The Address holds
    Address keys only; its n-th attribute is present exactly when the list
    has a field at position n + 4 (counting from 0); and its street holds no
    sub-field separator. *)
Theorem _parse_address_total (parts : list string) (default_name : string) :
  exists address,
    _parse_address parts default_name = Ok address
    /\ address_schema address
    /\ (forall n key,
           address_keys !! n = Some key ->
           is_Some (address !! key) <-> (n + 4 < length parts)%nat)
    /\ (forall v, address !! "street" = Some v -> contains ":" v = false).
Proof.
  destruct (_parse_address_fields parts default_name)
    as (a & Ha & H0 & H1 & H2 & H3 & H4 & H5).
  exists a. split; [exact Ha|]. split; [exact (_parse_address_keys _ _ _ Ha)|].
  split.
  - intros n key Hkey. rewrite <- lookup_lt_is_Some.
    destruct n as [|[|[|[|[|[|n]]]]]]; simpl in Hkey;
      try discriminate; injection Hkey as <-; simpl.
    + now rewrite H0, fmap_is_Some.
    + now rewrite H1, fmap_is_Some.
    + now rewrite H2.
    + now rewrite H3.
    + now rewrite H4.
    + now rewrite H5.
  - intros v. rewrite H1. destruct (parts !! 5%nat) as [raw|]; [|discriminate].
    simpl. intros [= <-]. now apply replace_removes.
Qed.

(** * The number of shipments, and where an item goes *)

Section Counting.

Lemma nonempty_insert_true (key : string) (v : pyval) (d : gmap string pyval) :
  nonempty (<[key := v]> d) = true.
Proof. apply nonempty_true, insert_non_empty. Qed.

(** How many records are on [result['shipments']] at the end, from any
    state of the loop. *)
Lemma aggregate_length (segments : list string) (st st' : aggregator) :
  for_each _parse_shipments_body st segments = Ok st' ->
  (length (add_last_shipment st') + empty_opens segments
   = length (appended st) + count_opens segments
     + (if nonempty (current_shipment st) then 1
        else if starts_closed segments then 0 else 1))%nat.
Proof.
  assert (forall s, length (appended (close_shipment s))
                    = (length (appended s)
                       + (if nonempty (current_shipment s) then 1 else 0))%nat
                    /\ nonempty (current_shipment (close_shipment s)) = false)
    as Hclose.
  { intros s. unfold close_shipment.
    destruct (nonempty (current_shipment s)) eqn:E; simpl.
    - rewrite length_app. simpl. split; [lia | reflexivity].
    - split; [lia | exact E]. }
  revert st. induction segments as [|seg rest IH]; intros st H.
  - simpl in H. injection H as <-. rewrite add_last_shipment_close.
    destruct (Hclose st) as [-> _]. unfold count_opens. simpl.
    destruct (nonempty (current_shipment st)); lia.
  - destruct (for_each_cons_effect _ _ _ _ H) as (st1 & He & Hrest).
    specialize (IH st1 Hrest). unfold count_opens in *.
    cbn [empty_opens starts_closed List.filter].
    destruct (Hclose st) as [Hlen Hcur].
    destruct He as [p n Ho Hp Hn | Ho Hlt | key v Hf | x Hx | Ho Hf Hx].
    + rewrite Ho.
      assert ((2 <? length (split "+" seg))%nat = true) as ->.
      { apply Nat.ltb_lt. eapply lookup_lt_Some, Hp. }
      cbn [assign current_shipment appended] in IH.
      rewrite nonempty_insert_true in IH. rewrite Hlen in IH.
      cbn [negb andb length]. destruct (nonempty (current_shipment st)); lia.
    + rewrite Ho.
      assert ((2 <? length (split "+" seg))%nat = false) as ->
          by now apply Nat.ltb_ge.
      rewrite Hcur, Hlen in IH.
      cbn [negb andb length]. 
      destruct (nonempty (current_shipment st)), (starts_closed rest); lia.
    + rewrite (fills_not_opens _ Hf), Hf.
      cbn [assign current_shipment appended] in IH.
      rewrite nonempty_insert_true in IH.
      cbn [negb andb]. destruct (nonempty (current_shipment st)); lia.
    + rewrite (item_not_opens _ _ Hx), (item_not_fills _ _ Hx).
      cbn [current_shipment appended negb andb] in *. lia.
    + rewrite Ho, Hf. cbn [negb andb]. lia.
Qed.

End Counting.

(** C1, as amended.  The shipments pass returns on every input, and the
    number of shipments is the number of opening segments (GID+1, GID+2),
    less the opening segments that have fewer than three fields and no
    filling segment before the next opening segment, plus one when a filling
    segment comes before the first opening segment.  So it is the number of
    opening segments when there is neither. *)
Theorem parse_iftmin_shipments_length (data : string) :
  (exists doc',
      _parse_shipments (tokenize data) empty_document = Ok doc'
      /\ (length (shipments doc') + empty_opens (tokenize data)
          = count_opens (tokenize data)
            + (if starts_closed (tokenize data) then 0 else 1))%nat)
  /\ (forall doc,
         parse_iftmin data = Ok doc ->
         (length (shipments doc) + empty_opens (tokenize data)
          = count_opens (tokenize data)
            + (if starts_closed (tokenize data) then 0 else 1))%nat
         /\ (empty_opens (tokenize data) = 0%nat ->
             starts_closed (tokenize data) = true ->
             length (shipments doc) = count_opens (tokenize data))).
Proof.
  destruct (_parse_shipments_returns (tokenize data) empty_document)
    as (st & Hst & Hdoc').
  pose proof (aggregate_length _ _ _ Hst) as Hlen.
  cbn [empty_document shipments current_shipment appended length] in Hlen.
  rewrite (proj2 (nonempty_false ∅) eq_refl) in Hlen.
  split.
  - eexists. split; [exact Hdoc' | exact Hlen].
  - intros doc Hdoc.
    rewrite (parse_iftmin_same_shipments _ _ _ Hdoc Hdoc').
    cbn [shipments].
    split; [exact Hlen|]. intros He Hc. rewrite He, Hc in Hlen. lia.
Qed.

Lemma parse_iftmin_shipments_length_witness :
  exists doc,
    parse_iftmin "NAD+CN+'GID+1'RFF+CR+Z1'GID+2'GID+1+5:PK'" = Ok doc
    /\ (length (shipments doc) + 1 = 3 + 1)%nat.
Proof.
  eexists. split; [vm_compute; reflexivity|].
  refine (proj1 (proj2 (parse_iftmin_shipments_length
                          "NAD+CN+'GID+1'RFF+CR+Z1'GID+2'GID+1+5:PK'") _ _)).
  vm_compute; reflexivity.
Defined.

Section Placement.

(** The records appended from a given point of the loop on, and whether
    there is any. *)
Lemma aggregate_later (segments : list string) (st st' : aggregator) :
  for_each _parse_shipments_body st segments = Ok st' ->
  exists later,
    add_last_shipment st' = (appended st ++ later)%list
    /\ (later = []
        <-> current_shipment st = ∅
            /\ forall s, In s segments -> sets_field s = false).
Proof.
  intros H.
  destruct (for_each_returns _parse_shipments_body segments
              (fun s0 seg _ =>
                 let (s1, Hs1) := _parse_shipments_body_effect s0 seg in
                 ex_intro _ s1 (proj1 Hs1))
              (mkAggregator (current_shipment st) (items st) [])) as [st0 H0].
  pose proof (for_each_shift (appended st) _ _ _ H0) as Hs.
  cbn [current_shipment items appended] in Hs. rewrite app_nil_r in Hs.
  destruct st as [c i a]. cbn [current_shipment items appended] in *.
  rewrite H in Hs. injection Hs as ->.
  exists (add_last_shipment st0). split; [apply add_last_shipment_shift|].
  rewrite (aggregate_nothing _ _ _ H0). cbn [current_shipment appended].
  rewrite forallb_forall. split.
  - intros (_ & Hc & Hall). split; [exact Hc|].
    intros s Hin. apply negb_true_iff. now apply Hall.
  - intros [Hc Hall]. split; [reflexivity|]. split; [exact Hc|].
    intros s Hin. apply negb_true_iff. now apply Hall.
Qed.

End Placement.

(** C3, as amended.  The identifier of an item-reference segment (RFF+VP
    with a third field) joins the accumulator whether or not a record is being
    filled.  The shipments appended before the segment is read hold, with the
    accumulator, the identifiers read before it and nothing else.  The
    identifier reaches no shipment exactly when no record is being filled as
    the segment is read and no later segment puts an entry into a record.
    Otherwise it is in the first shipment appended afterwards, which extends
    the record being filled: that shipment's item list is the accumulator,
    then the identifier, then identifiers read later, and these together with
    the item lists of the shipments after it and the identifiers left over at
    the end are the identifiers read after the segment, in order; so this
    occurrence of the identifier is in that shipment and in no other. *)
Theorem item_reference_placement (data : string) (pre post : list string)
    (segment x : string) (st : aggregator) :
  tokenize data = (pre ++ segment :: post)%list ->
  item_reference segment = Some x ->
  aggregate [] pre = Ok st ->
  exists st' later,
    aggregate [] (tokenize data) = Ok st'
    /\ add_last_shipment st' = (appended st ++ later)%list
    /\ (forall doc, parse_iftmin data = Ok doc ->
                    shipments doc = (appended st ++ later)%list)
    /\ (concat (items_of <$> appended st) ++ items st)%list
       = item_references pre
    /\ (later = []
        <-> current_shipment st = ∅
            /\ forall s, In s post -> sets_field s = false)
    /\ (forall s later',
           later = s :: later' ->
           dom (current_shipment st) ⊆ dom s
           /\ exists rest,
               s !! "items" = Some (VList (items st ++ x :: rest)%list)
               /\ (rest ++ concat (items_of <$> later')
                     ++ (if nonempty (current_shipment st') then []
                         else items st'))%list
                  = item_references post).
Proof.
  intros Htok Hx Hpre.
  destruct (aggregate_returns [] (tokenize data)) as [st' Hst'].
  pose proof Hst' as Hrun. unfold aggregate in Hrun, Hpre.
  rewrite Htok, for_each_app, Hpre in Hrun. simpl Py.bind in Hrun.
  destruct (for_each_cons_effect _ _ _ _ Hrun) as (st1 & He & Hpost).
  assert (st1 = mkAggregator (current_shipment st) (items st ++ [x])
                  (appended st)) as ->.
  { destruct He as [p n Ho Hp Hn | Ho Hlen | key v Hf | y Hy | Ho Hf Hy].
    - rewrite (item_not_opens _ _ Hx) in Ho. discriminate.
    - rewrite (item_not_opens _ _ Hx) in Ho. discriminate.
    - rewrite (item_not_fills _ _ Hx) in Hf. discriminate.
    - congruence.
    - congruence. }
  clear He Hrun.
  destruct (aggregate_later _ _ _ Hpost) as (later & Hl & Hnone).
  destruct (aggregate_next_flush _ _ _ Hpost) as (later0 & Hl0 & Hi & Hd).
  cbn [current_shipment items appended] in Hl, Hnone, Hl0, Hi, Hd.
  rewrite Hl in Hl0. apply app_inv_head in Hl0. subst later0.
  pose proof (aggregate_items _ _ _ Hpre) as Hbefore.
  cbn [current_shipment items appended fmap list_fmap concat app] in Hbefore.
  pose proof (aggregate_items _ _ _ Hpost) as Hafter.
  cbn [current_shipment items appended] in Hafter.
  exists st', later. split; [exact Hst'|]. split; [exact Hl|].
  split; [|split; [|split; [exact Hnone|]]].
  - intros doc Hdoc. now rewrite (parse_iftmin_aggregate _ _ _ Hdoc Hst').
  - rewrite Hbefore. reflexivity.
  - intros s later' ->. split.
    + destruct (decide (current_shipment st = ∅)) as [->|Hne].
      * rewrite dom_empty_L. apply empty_subseteq.
      * destruct (Hd Hne) as (s0 & [= <-] & Hdom). exact Hdom.
    + destruct (Hi s eq_refl) as [rest Hrest].
      rewrite <- app_assoc in Hrest. exists rest. split; [exact Hrest|].
      assert ((concat (items_of <$> add_last_shipment st')
                 ++ (if nonempty (current_shipment st') then [] else items st'))%list
              = (concat (items_of <$> appended st') ++ items st')%list) as Hend.
      { unfold add_last_shipment.
        destruct (nonempty (current_shipment st')); [|reflexivity].
        rewrite fmap_app, concat_app. simpl.
        now rewrite items_of_flush, !app_nil_r. }
      rewrite Hafter, Hl in Hend.
      rewrite fmap_app, concat_app in Hend. cbn [fmap list_fmap concat] in Hend.
      unfold items_of at 2 in Hend. rewrite Hrest in Hend.
      rewrite <- !app_assoc in Hend. apply app_inv_head in Hend.
      apply app_inv_head in Hend. simpl in Hend. injection Hend as Hend.
      exact Hend.
Qed.

Lemma item_reference_placement_witness :
  exists later,
    (forall doc,
        parse_iftmin "GID+1+5:PK'RFF+VP+A'RFF+VP+B'GID+2+1:PK'" = Ok doc ->
        shipments doc = later)
    /\ (exists s later',
          later = s :: later'
          /\ exists rest, s !! "items" = Some (VList ("A" :: rest))).
Proof.
  destruct (item_reference_placement
              "GID+1+5:PK'RFF+VP+A'RFF+VP+B'GID+2+1:PK'"
              ["GID+1+5:PK"] ["RFF+VP+B"; "GID+2+1:PK"] "RFF+VP+A" "A"
              (mkAggregator (<["total_packages" := VStr "5"]> ∅) [] []))
    as (st' & later & _ & _ & Hdoc & _ & Hnone & Hfirst);
    [vm_compute; reflexivity ..|].
  exists later. split; [exact Hdoc|].
  destruct later as [|s later'].
  - destruct (proj1 Hnone eq_refl) as [Hc _]. discriminate Hc.
  - exists s, later'. split; [reflexivity|].
    destruct (Hfirst s later' eq_refl) as (_ & rest & Hrest & _).
    exists rest. exact Hrest.
Defined.
